(** * ffxivstats: the scraper's parsing pipeline (index.js)

    A shallow embedding of [index.js]: the view-source reconstruction, the
    whitespace normaliser, the category mapper, the per-job parser, the
    aggregation loop and the request handler, followed by the properties of
    the written specification that concern them.

    JavaScript strings are sequences of UTF-16 code units; they are modelled
    as lists of [N].  Regular expressions are modelled by a small backtracking
    matcher that follows the ECMAScript matching order (leftmost match,
    alternatives left to right, greedy or lazy quantifiers). *)

From Stdlib Require Import String Ascii.
From Stdlib Require Import List NArith ZArith Bool Arith Lia.
From Stdlib Require Import Sorting.Sorted.
Import ListNotations.

(** ** Strings *)

Definition jsstring := list N.

(** A string literal of the source, written with ASCII characters only. *)
Definition js (s : String.string) : jsstring :=
  List.map Ascii.N_of_ascii (String.list_ascii_of_string s).

Fixpoint str_eqb (a b : jsstring) : bool :=
  match a, b with
  | [], [] => true
  | x :: a', y :: b' => N.eqb x y && str_eqb a' b'
  | _, _ => false
  end.

(** Truthiness of a string: only the empty string is falsy. *)
Definition str_truthy (s : jsstring) : bool :=
  match s with [] => false | _ => true end.

(** A possibly absent string ([undefined] or [null] is [None]). *)
Definition opt_truthy (o : option jsstring) : bool :=
  match o with Some s => str_truthy s | None => false end.

Definition or_empty (o : option jsstring) : jsstring :=
  match o with Some s => s | None => [] end.

(** [a || b] on possibly absent strings. *)
Definition or_else (a b : option jsstring) : option jsstring :=
  if opt_truthy a then a else b.

Definition in_range (lo hi c : N) : bool := (lo <=? c)%N && (c <=? hi)%N.

(** The class [\s], which is also the set [String.prototype.trim] removes:
    WhiteSpace (TAB, VT, FF, SP, NBSP, ZWNBSP and the space separators) and
    LineTerminator (LF, CR, LS, PS). *)
Definition isWhiteSpace (c : N) : bool :=
  in_range 9 13 c || N.eqb c 32 || N.eqb c 160 || N.eqb c 5760
  || in_range 8192 8202 c || N.eqb c 8232 || N.eqb c 8233 || N.eqb c 8239
  || N.eqb c 8287 || N.eqb c 12288 || N.eqb c 65279.

(** The class [\d]. *)
Definition isDigit (c : N) : bool := in_range 48 57 c.

(** The class [[A-Za-z]]. *)
Definition isAsciiLetter (c : N) : bool := in_range 65 90 c || in_range 97 122 c.

Fixpoint dropWhile (p : N -> bool) (s : jsstring) : jsstring :=
  match s with
  | [] => []
  | x :: s' => if p x then dropWhile p s' else s
  end.

(** [String.prototype.trim]. *)
Definition trimStart (s : jsstring) : jsstring := dropWhile isWhiteSpace s.
Definition trimEnd (s : jsstring) : jsstring := rev (dropWhile isWhiteSpace (rev s)).
Definition trim (s : jsstring) : jsstring := trimEnd (trimStart s).

Fixpoint isPrefix (p s : jsstring) : bool :=
  match p, s with
  | [], _ => true
  | x :: p', y :: s' => N.eqb x y && isPrefix p' s'
  | _ :: _, [] => false
  end.

(** [String.prototype.includes]. *)
Fixpoint includes (s needle : jsstring) : bool :=
  isPrefix needle s ||
  match s with
  | [] => false
  | _ :: s' => includes s' needle
  end.

Definition newline : jsstring := [10%N].

(** [Array.prototype.join]. *)
Fixpoint join (sep : jsstring) (parts : list jsstring) : jsstring :=
  match parts with
  | [] => []
  | [p] => p
  | p :: rest => p ++ sep ++ join sep rest
  end.

(** ** Regular expressions

    The fragment of the ECMAScript pattern language the program uses: single
    code-unit classes, concatenation, alternation, quantified classes (greedy
    or lazy, with bounds), capture groups and the anchors [^] and [$] (no
    [m] flag).  Every quantifier of the source applies to a class, which makes
    the matcher structurally recursive on the input. *)
Module RegExp.

Inductive re : Type :=
| Eps
| Cls (p : N -> bool)
| Seq (a b : re)
| Alt (a b : re)
| Rep (greedy : bool) (min : nat) (max : option nat) (p : N -> bool)
| Grp (n : nat) (a : re)
| Bos
| Eos.

(** Captured groups: group number and captured text, latest first. *)
Definition caps := list (nat * jsstring).

Fixpoint group (n : nat) (c : caps) : option jsstring :=
  match c with
  | [] => None
  | (k, v) :: c' => if Nat.eqb k n then Some v else group n c'
  end.

Definition result := option (nat * caps).
Definition cont := nat -> jsstring -> caps -> result.

Definition dec (max : option nat) : option nat :=
  match max with Some n => Some (Nat.pred n) | None => None end.

Definition exhausted (max : option nat) : bool :=
  match max with Some 0 => true | _ => false end.

(** RepeatMatcher for a class: [i] is the index of the first unit of [s]. *)
Fixpoint rep (greedy : bool) (p : N -> bool) (min : nat) (max : option nat)
         (i : nat) (s : jsstring) (c : caps) (k : cont) {struct s} : result :=
  if exhausted max then k i s c else
  match min with
  | S min' =>
      match s with
      | x :: s' => if p x then rep greedy p min' (dec max) (S i) s' c k else None
      | [] => None
      end
  | 0 =>
      if greedy then
        match
          match s with
          | x :: s' => if p x then rep greedy p 0 (dec max) (S i) s' c k else None
          | [] => None
          end
        with
        | Some z => Some z
        | None => k i s c
        end
      else
        match k i s c with
        | Some z => Some z
        | None =>
            match s with
            | x :: s' => if p x then rep greedy p 0 (dec max) (S i) s' c k else None
            | [] => None
            end
        end
  end.

(** The matcher of a pattern, in continuation-passing style: [k] is what
    remains to be matched after the pattern. *)
Fixpoint m (r : re) (i : nat) (s : jsstring) (c : caps) (k : cont) : result :=
  match r with
  | Eps => k i s c
  | Cls p =>
      match s with
      | x :: s' => if p x then k (S i) s' c else None
      | [] => None
      end
  | Seq a b => m a i s c (fun i' s' c' => m b i' s' c' k)
  | Alt a b =>
      match m a i s c k with
      | Some z => Some z
      | None => m b i s c k
      end
  | Rep greedy min max p => rep greedy p min max i s c k
  | Grp n a => m a i s c (fun i' s' c' => k i' s' ((n, firstn (i' - i) s) :: c'))
  | Bos => if Nat.eqb i 0 then k i s c else None
  | Eos => match s with [] => k i s c | _ :: _ => None end
  end.

Definition accept : cont := fun i _ c => Some (i, c).

(** A match attempt anchored at index [i], where [s] is the input from [i]
    on: the end index and the captures. *)
Definition exec_at (r : re) (i : nat) (s : jsstring) : result := m r i s [] accept.

Record found := Found { m_start : nat; m_end : nat; m_caps : caps }.

(** The leftmost match at or after index [i]. *)
Fixpoint search (r : re) (i : nat) (s : jsstring) : option found :=
  match exec_at r i s with
  | Some (e, c) => Some (Found i e c)
  | None =>
      match s with
      | [] => None
      | _ :: s' => search r (S i) s'
      end
  end.

(** [RegExp.prototype.test] and [String.prototype.match] for a pattern
    without the [g] flag. *)
Definition test (r : re) (s : jsstring) : bool :=
  match search r 0 s with Some _ => true | None => false end.

Definition match_ (r : re) (s : jsstring) : option caps :=
  match search r 0 s with Some f => Some (m_caps f) | None => None end.

(** The successive matches of a pattern with the [g] flag, as the loop
    [while ((m = re.exec(s)) !== null)] sees them: after a match ending at
    [e] the next attempt starts at [e].  [skip] counts the units of the
    current match still to be passed over.  (After an empty match the scan
    moves on by one unit; no global pattern of the program matches the empty
    string.) *)
Fixpoint scan (r : re) (skip : nat) (i : nat) (s : jsstring) : list found :=
  match skip with
  | S k =>
      match s with
      | [] => []
      | _ :: s' => scan r k (S i) s'
      end
  | 0 =>
      match exec_at r i s with
      | Some (e, c) =>
          Found i e c ::
          match s with
          | [] => []
          | _ :: s' => scan r (e - i - 1) (S i) s'
          end
      | None =>
          match s with
          | [] => []
          | _ :: s' => scan r 0 (S i) s'
          end
      end
  end.

Definition exec_all (r : re) (s : jsstring) : list found := scan r 0 0 s.

(** [s.replace(re, by)] for a pattern with the [g] flag and a replacement
    text without [$] patterns. *)
Fixpoint replace_from (r : re) (by_ : jsstring) (skip : nat) (i : nat)
         (s : jsstring) : jsstring :=
  match skip with
  | S k =>
      match s with
      | [] => []
      | _ :: s' => replace_from r by_ k (S i) s'
      end
  | 0 =>
      match exec_at r i s with
      | Some (e, _) =>
          by_ ++
          match s with
          | [] => []
          | x :: s' =>
              if Nat.eqb e i then x :: replace_from r by_ 0 (S i) s'
              else replace_from r by_ (e - i - 1) (S i) s'
          end
      | None =>
          match s with
          | [] => []
          | x :: s' => x :: replace_from r by_ 0 (S i) s'
          end
      end
  end.

Definition replace_all (r : re) (by_ : jsstring) (s : jsstring) : jsstring :=
  replace_from r by_ 0 0 s.

(** Pattern text. *)
Definition chr (c : N) : re := Cls (N.eqb c).

(** With the [i] flag two code units match when their canonical forms
    (upper case) agree.  For an ASCII letter of the pattern these are its
    two ASCII cases only: the canonical form of a unit above 127 is never
    below 128. *)
Definition upper (c : N) : N := if in_range 97 122 c then (c - 32)%N else c.
Definition chr_i (c : N) : re := Cls (fun x => N.eqb (upper x) (upper c)).

Fixpoint lit_i (s : jsstring) : re :=
  match s with
  | [] => Eps
  | [c] => chr_i c
  | c :: s' => Seq (chr_i c) (lit_i s')
  end.

Definition star (p : N -> bool) : re := Rep true 0 None p.
Definition plus (p : N -> bool) : re := Rep true 1 None p.
Definition star_lazy (p : N -> bool) : re := Rep false 0 None p.

End RegExp.
Import RegExp.

(** ** Structural helpers *)

(** [/\s+/g] *)
Definition re_spaces : re := plus isWhiteSpace.

(** [norm(s)]: an absent or empty argument counts as the empty text, every
    match of [re_spaces] is replaced by one space, and the result is trimmed. *)
Definition norm (s : option jsstring) : jsstring :=
  trim (replace_all re_spaces (js " ") (or_empty s)).

(** ** Numbers

    The numbers the parser handles are the results of [parseInt] and the
    literal [0].  A Number is an IEEE double: it holds every integer up to
    [2^53] in absolute value exactly, and [Num z] stands for such an integer.
    Beyond [2^53] the conversion of an integer rounds: [Rounded z] stands for
    the Number that the conversion of the integer [z] gives, a double near
    [z] or an infinity, which the language leaves to the rounding of the
    implementation.  It is neither [NaN] nor [0]. *)
Inductive number : Type :=
| NaN
| Num (z : Z)
| Rounded (z : Z).

(** The integers a Number holds exactly. *)
Definition safe_integer (z : Z) : bool := (Z.abs z <=? 9007199254740992)%Z.

(** The Number for an integer. *)
Definition to_number (z : Z) : number :=
  if safe_integer z then Num z else Rounded z.

(** Truthiness of a Number: [0] and [NaN] are falsy. *)
Definition num_truthy (n : number) : bool :=
  match n with
  | NaN => false
  | Num z => negb (Z.eqb z 0)
  | Rounded _ => true
  end.

(** [n || 0] *)
Definition num_or_zero (n : number) : number :=
  if num_truthy n then n else Num 0.

Definition digit_value (c : N) : Z := Z.of_N (c - 48).

(** The value of the longest prefix of decimal digits, after [acc]; [None]
    when no digit has been read. *)
Fixpoint digits_prefix (acc : option Z) (s : jsstring) : option Z :=
  match s with
  | x :: s' =>
      if isDigit x then
        digits_prefix
          (Some (match acc with Some a => 10 * a + digit_value x | None => digit_value x end)%Z)
          s'
      else acc
  | [] => acc
  end.

(** [parseInt(s, 10)]: leading white space is skipped, a sign is read, then
    the longest prefix of digits; [NaN] when there is none. *)
Definition parseInt (s : jsstring) : number :=
  let t := trimStart s in
  let '(sign, body) :=
    match t with
    | x :: t' =>
        if N.eqb x 45 then ((-1)%Z, t')
        else if N.eqb x 43 then (1%Z, t')
        else (1%Z, t)
    | [] => (1%Z, t)
    end in
  match digits_prefix None body with
  | Some v => to_number (sign * v)
  | None => NaN
  end.

(** ** Document nodes

    What the program reads of the parsed document through cheerio: of a
    [<div>] its text and three attributes, of an [<li>] the [src] of its first
    [<img>] and its child [<div>]s in order. *)
Record DivNode : Type := Div {
  div_text : jsstring;
  div_data_tooltip : option jsstring;
  div_title : option jsstring;
  div_aria_label : option jsstring
}.

Record LiNode : Type := Li {
  li_img_src : option jsstring;
  li_divs : list DivNode
}.

(** ** mapCategory *)

Inductive Group : Type := DoW_DoM | DoH_DoL.

Inductive Category : Type :=
| Tank | Healer | Melee_DPS | Physical_Ranged_DPS | Magical_Ranged_DPS
| Limited_Jobs | Hand_DoH | Land_DoL.

Definition mapCategory (t : jsstring) : option (Group * Category) :=
  if includes t (js "tank") then Some (DoW_DoM, Tank)
  else if includes t (js "healer") then Some (DoW_DoM, Healer)
  else if includes t (js "melee dps") then Some (DoW_DoM, Melee_DPS)
  else if includes t (js "physical ranged dps") then Some (DoW_DoM, Physical_Ranged_DPS)
  else if includes t (js "magical ranged dps") then Some (DoW_DoM, Magical_Ranged_DPS)
  else if includes t (js "limited") then Some (DoW_DoM, Limited_Jobs)
  else if includes t (js "disciples of the hand") || str_eqb t (js "hand")
    then Some (DoH_DoL, Hand_DoH)
  else if includes t (js "disciples of the land") || str_eqb t (js "land")
    then Some (DoH_DoL, Land_DoL)
  else None.

(** ** parseLi *)

(** [/^\d{1,3}$/] *)
Definition re_level : re := Seq Bos (Seq (Rep true 1 (Some 3) isDigit) Eos).

Definition isDigitOrComma (c : N) : bool := isDigit c || N.eqb c 44.

(** The ratio pattern of the source: a group of a digit followed by digits
    or commas, optional white space, a slash, optional white space, a second
    such group. *)
Definition re_exp : re :=
  Seq (Grp 1 (Seq (Cls isDigit) (star isDigitOrComma)))
 (Seq (star isWhiteSpace)
 (Seq (chr 47)
 (Seq (star isWhiteSpace)
      (Grp 2 (Seq (Cls isDigit) (star isDigitOrComma)))))).

(** [/,/g] *)
Definition re_comma : re := chr 44.

(** [/[A-Za-z]/] *)
Definition re_letter : re := Cls isAsciiLetter.

(** The second placeholder of [isDash]: the three code units U+00E2, U+20AC,
    U+201C, an en dash read through a wrong encoding. *)
Definition dash_mojibake : jsstring := [226; 8364; 8220]%N.

Definition isDash (s : jsstring) : bool :=
  str_eqb s (js "-") || str_eqb s dash_mojibake.

(** The variables the callback of [.each] assigns. *)
Record Fields : Type := MkFields {
  f_level : number;
  f_name : jsstring;
  f_tooltip : jsstring;
  f_exp : number;
  f_max : number
}.

Definition fields0 : Fields := MkFields (Num 0) [] [] (Num 0) (Num 0).

(** The ratio of a text: the two captured groups of [re_exp], commas removed,
    converted. *)
Definition exp_pair (raw : jsstring) : option (number * number) :=
  match match_ re_exp raw with
  | Some c =>
      Some (parseInt (replace_all re_comma [] (or_empty (group 1 c))),
            parseInt (replace_all re_comma [] (or_empty (group 2 c))))
  | None => None
  end.

(** The body of the callback, once [raw] is computed. *)
Definition visit_raw (raw : jsstring) (d : DivNode) (st : Fields) : Fields :=
  if negb (num_truthy (f_level st)) && test re_level raw then
    MkFields (parseInt raw) (f_name st) (f_tooltip st) (f_exp st) (f_max st)
  else
    match exp_pair raw with
    | Some (e, mx) => MkFields (f_level st) (f_name st) (f_tooltip st) e mx
    | None =>
        if negb (str_truthy (f_name st)) && str_truthy raw && negb (isDash raw)
           && test re_letter raw
        then
          MkFields (f_level st) raw
            (or_empty
               (or_else (div_data_tooltip d)
                  (or_else (div_title d) (or_else (div_aria_label d) (Some raw)))))
            (f_exp st) (f_max st)
        else st
    end.

Definition visit_div (st : Fields) (d : DivNode) : Fields :=
  visit_raw (norm (Some (div_text d))) d st.

Record Parsed : Type := MkParsed {
  icon : option jsstring;
  level : number;
  name : jsstring;
  tooltip : jsstring;
  exp : number;
  max : number
}.

Definition parseLi (li : LiNode) : Parsed :=
  let icon := or_else (li_img_src li) None in
  let st := fold_left visit_div (li_divs li) fields0 in
  MkParsed icon (f_level st) (f_name st) (f_tooltip st) (f_exp st) (f_max st).

Definition plain_div (text : String.string) : DivNode := Div (js text) None None None.

(** ** The result object *)

Record Job : Type := MkJob {
  job_icon : option jsstring;
  job_level : number;
  job_name : jsstring;
  job_name_tooltip : jsstring;
  job_exp : number;
  job_exp_max : number
}.

Record Slot : Type := MkSlot {
  slot_icon : option jsstring;
  jobs : list Job
}.

Definition empty_slot : Slot := MkSlot None [].

Record Out : Type := MkOut {
  details_name : jsstring;
  details_world : jsstring;
  o_tank : Slot;
  o_healer : Slot;
  o_melee : Slot;
  o_physical : Slot;
  o_magical : Slot;
  o_limited : Slot;
  o_hand : Slot;
  o_land : Slot
}.

(** [out[group][key]], read and written.  The key determines the group. *)
Definition get_slot (key : Category) (o : Out) : Slot :=
  match key with
  | Tank => o_tank o
  | Healer => o_healer o
  | Melee_DPS => o_melee o
  | Physical_Ranged_DPS => o_physical o
  | Magical_Ranged_DPS => o_magical o
  | Limited_Jobs => o_limited o
  | Hand_DoH => o_hand o
  | Land_DoL => o_land o
  end.

Definition set_slot (key : Category) (v : Slot) (o : Out) : Out :=
  let '(MkOut n w a b c d e f g h) := o in
  match key with
  | Tank => MkOut n w v b c d e f g h
  | Healer => MkOut n w a v c d e f g h
  | Melee_DPS => MkOut n w a b v d e f g h
  | Physical_Ranged_DPS => MkOut n w a b c v e f g h
  | Magical_Ranged_DPS => MkOut n w a b c d v f g h
  | Limited_Jobs => MkOut n w a b c d e v g h
  | Hand_DoH => MkOut n w a b c d e f v h
  | Land_DoL => MkOut n w a b c d e f g v
  end.

(** ** The parsed page, as the handler queries it *)

Record H4Node : Type := H4 {
  h4_text : jsstring;
  h4_img_src : option jsstring;   (* [src] of the first [<img>] inside *)
  h4_next_ul : option (list LiNode) (* child [<li>]s of the first following [<ul>] sibling *)
}.

Record Document : Type := Doc {
  chara_name_text : jsstring;   (* text of the first [.frame__chara__name], or empty *)
  chara_world_text : jsstring;  (* text of the first [.frame__chara__world], or empty *)
  doc_h4s : list H4Node
}.

(** ** The request handler's interaction with the network *)

(** What [axios.get] does: it resolves with the body, or rejects with an
    error that may carry a response status and a code. *)
Inductive FetchResult : Type :=
| Resolved (data : jsstring)
| Rejected (status : option N) (code : option jsstring).

(** A computation that may call [axios.get]. *)
Inductive Prog (A : Type) : Type :=
| Ret (a : A)
| AxiosGet (url : jsstring) (k : FetchResult -> Prog A).

Arguments Ret {A} a.
Arguments AxiosGet {A} url k.

(** Running a computation against a network; the list holds the requested
    URLs in order. *)
Fixpoint run {A : Type} (net : jsstring -> FetchResult) (p : Prog A) : list jsstring * A :=
  match p with
  | Ret a => ([], a)
  | AxiosGet url k =>
      let '(urls, a) := run net (k (net url)) in (url :: urls, a)
  end.

Inductive Body : Type :=
| ErrorBody (error : jsstring) (url : option jsstring)
| OutBody (out : Out).

Record Response : Type := MkResponse {
  status_code : N;
  cache_control : option jsstring;
  body : Body
}.

Fixpoint uint_digits (u : Decimal.uint) : jsstring :=
  match u with
  | Decimal.Nil => []
  | Decimal.D0 u' => 48%N :: uint_digits u'
  | Decimal.D1 u' => 49%N :: uint_digits u'
  | Decimal.D2 u' => 50%N :: uint_digits u'
  | Decimal.D3 u' => 51%N :: uint_digits u'
  | Decimal.D4 u' => 52%N :: uint_digits u'
  | Decimal.D5 u' => 53%N :: uint_digits u'
  | Decimal.D6 u' => 54%N :: uint_digits u'
  | Decimal.D7 u' => 55%N :: uint_digits u'
  | Decimal.D8 u' => 56%N :: uint_digits u'
  | Decimal.D9 u' => 57%N :: uint_digits u'
  end.

(** The decimal text of a status in a template literal. *)
Definition status_text (n : N) : jsstring := uint_digits (N.to_uint n).

(** [/<[^>]+>/g] *)
Definition notGt (c : N) : bool := negb (N.eqb c 62).
Definition re_tag : re := Seq (chr 60) (Seq (plus notGt) (chr 62)).

(** [cellRegex]: a [<td] whose [class] attribute, in double or single quotes,
    contains [line-content], and its content up to the next [</td>]; flags
    [g] and [i]. *)
Definition notQuote (c : N) : bool := negb (N.eqb c 34) && negb (N.eqb c 39).
Definition anyUnit (c : N) : bool := true.
Definition re_quote : re := Alt (chr 34) (chr 39).

Definition cellRegex : re :=
  Seq (lit_i (js "<td"))
 (Seq (star notGt)
 (Seq (lit_i (js "class="))
 (Seq re_quote
 (Seq (Grp 1 (Seq (star notQuote) (Seq (lit_i (js "line-content")) (star notQuote))))
 (Seq re_quote
 (Seq (star notGt)
 (Seq (chr 62)
 (Seq (Grp 2 (star_lazy anyUnit))
      (lit_i (js "</td>")))))))))).

Section Pipeline.

(** The library functions the program calls, outside the repository:
    [he.decode], [String.prototype.toLowerCase], [encodeURIComponent] and
    [cheerio.load] followed by the selectors of the handler. *)
Variable he_decode : jsstring -> jsstring.
Variable toLowerCase : jsstring -> jsstring.
Variable encodeURIComponent : jsstring -> jsstring.
Variable cheerio_load : jsstring -> Document.

(** *** reconstructFromViewSource *)

(** [m[2]] of a match of [cellRegex]. *)
Definition cell_inner (f : found) : jsstring := or_empty (group 2 (m_caps f)).

(** One pass of the loop body: tags removed, entities decoded. *)
Definition cell_line (f : found) : jsstring :=
  he_decode (replace_all re_tag [] (cell_inner f)).

Definition reconstructFromViewSource (html : jsstring) : jsstring :=
  let cells := List.map cell_line (exec_all cellRegex html) in
  match cells with
  | [] => html
  | _ :: _ => join newline cells
  end.

(** *** The aggregation loop of the handler *)

Definition out0 (doc : Document) : Out :=
  MkOut (norm (Some (chara_name_text doc))) (norm (Some (chara_world_text doc)))
    empty_slot empty_slot empty_slot empty_slot empty_slot empty_slot
    empty_slot empty_slot.

Definition job_of (p : Parsed) : Job :=
  MkJob (or_else (icon p) None)
        (num_or_zero (level p))
        (name p)
        (if str_truthy (tooltip p) then tooltip p else name p)
        (num_or_zero (exp p))
        (num_or_zero (max p)).

(** The callback over the [<li>] children of a list. *)
Definition visit_li (key : Category) (out : Out) (li : LiNode) : Out :=
  let parsed := parseLi li in
  if negb (str_truthy (name parsed)) then out
  else
    let s := get_slot key out in
    set_slot key (MkSlot (slot_icon s) (jobs s ++ [job_of parsed])) out.

(** The callback over the [<h4>] elements. *)
Definition visit_h4 (out : Out) (h4 : H4Node) : Out :=
  let label := toLowerCase (norm (Some (h4_text h4))) in
  match mapCategory label with
  | None => out
  | Some (_, key) =>
      let out1 :=
        match slot_icon (get_slot key out) with
        | None =>
            if opt_truthy (h4_img_src h4)
            then set_slot key (MkSlot (h4_img_src h4) (jobs (get_slot key out))) out
            else out
        | Some _ => out
        end in
      match h4_next_ul h4 with
      | None => out1
      | Some lis => fold_left (visit_li key) lis out1
      end
  end.

Definition aggregate (doc : Document) : Out :=
  fold_left visit_h4 (doc_h4s doc) (out0 doc).

(** *** The handler of [GET /character/:character] *)

Definition lodestone_url (id : jsstring) : jsstring :=
  js "https://na.finalfantasyxiv.com/lodestone/character/"
  ++ encodeURIComponent id ++ js "/class_job/".

Definition failure_message (status : option N) (code : option jsstring) : jsstring :=
  match status with
  | Some (Npos p) => js "Upstream returned HTTP " ++ status_text (Npos p)
  | _ =>
      match code with
      | Some c =>
          if str_eqb c (js "ECONNABORTED") then js "Request timed out"
          else js "Fetch/parse failed"
      | None => js "Fetch/parse failed"
      end
  end.

Definition handler (character : option jsstring) : Prog Response :=
  let id := trim (if opt_truthy character then or_empty character else []) in
  if negb (str_truthy id) then
    Ret (MkResponse 400 None (ErrorBody (js "Missing character ID.") None))
  else
    let url := lodestone_url id in
    AxiosGet url (fun r =>
      match r with
      | Resolved pretty =>
          let rawHtml := reconstructFromViewSource pretty in
          let doc := cheerio_load rawHtml in
          Ret (MkResponse 200 (Some (js "no-store")) (OutBody (aggregate doc)))
      | Rejected status code =>
          Ret (MkResponse 502 None (ErrorBody (failure_message status code) (Some url)))
      end).

End Pipeline.

Definition sample_dump : jsstring :=
  js "<table><tr><td class='line-number'></td><TD class='line-content'><span>a</span>b</td></tr><tr><td class='x line-content y' id=q>c<br>d</td></tr></table>".

(** * Vocabulary of the properties *)

(** ** Matches *)

(** A necessary condition on a match: the matched text [w] and the groups
    [cs] it captures, latest first (bounds of quantifiers and the position of
    anchors aside). *)
Fixpoint shape (r : re) (w : jsstring) (cs : caps) : Prop :=
  match r with
  | Eps | Bos | Eos => w = [] /\ cs = []
  | Cls p => (exists x, w = [x] /\ p x = true) /\ cs = []
  | Seq a b =>
      exists w1 w2 c1 c2,
        w = w1 ++ w2 /\ shape a w1 c1 /\ shape b w2 c2 /\ cs = c2 ++ c1
  | Alt a b => shape a w cs \/ shape b w cs
  | Rep _ _ _ p => forallb p w = true /\ cs = []
  | Grp n a => exists c1, shape a w c1 /\ cs = (n, w) :: c1
  end.

(** Whether the ratio pattern matches a text. *)
Definition ratio (raw : jsstring) : bool :=
  match exp_pair raw with Some _ => true | None => false end.

(** A text that cannot become the name. *)
Definition nameless (raw : jsstring) : bool :=
  ratio raw || negb (existsb isAsciiLetter raw) || isDash raw.

(** The normalised texts of the sub-blocks of a fragment, in order. *)
Definition block_texts (li : LiNode) : list jsstring :=
  List.map (fun d => norm (Some (div_text d))) (li_divs li).

(** The sub-block of a fragment whose text the ratio pattern matches. *)
Definition ratio_block (d : DivNode) : bool := ratio (norm (Some (div_text d))).

(** The first-match reading of the ratio rule: the pair comes from the first
    sub-block the ratio pattern matches. *)
Definition exp_from_first_ratio_block : Prop :=
  forall li d,
    find ratio_block (li_divs li) = Some d ->
    exp_pair (norm (Some (div_text d))) = Some (exp (parseLi li), max (parseLi li)).

(** A text that reads as a number: decimal digits only, or a text the ratio
    pattern matches. *)
Definition numeric_text (raw : jsstring) : bool :=
  (str_truthy raw && forallb isDigit raw) || ratio raw.

(** A job name written in katakana, with its level and ratio. *)
Definition katakana_item : LiNode :=
  Li None [plain_div "50"; Div [12490; 12452; 12488]%N None None None;
           plain_div "1,234 / 5,600"].

(** ** Words of a text *)

(** The length of the longest prefix of units satisfying [p]. *)
Fixpoint run_len (p : N -> bool) (s : jsstring) : nat :=
  match s with
  | x :: s' => if p x then S (run_len p s') else 0
  | [] => 0
  end.

(** One pass over a text that writes a single space for each run of white
    space; [in_run] tells that the previous unit was white space. *)
Fixpoint squeeze (in_run : bool) (s : jsstring) : jsstring :=
  match s with
  | [] => []
  | x :: s' =>
      if isWhiteSpace x then
        if in_run then squeeze true s' else 32%N :: squeeze true s'
      else x :: squeeze false s'
  end.

Definition head_is_space (s : jsstring) : bool :=
  match s with
  | y :: _ => isWhiteSpace y
  | [] => true
  end.

(** The words of a text: its maximal runs of units that are not white space,
    in order. *)
Fixpoint words (s : jsstring) : list jsstring :=
  match s with
  | [] => []
  | x :: s' =>
      if isWhiteSpace x then words s'
      else if head_is_space s' then [x] :: words s'
      else
        match words s' with
        | w :: r => (x :: w) :: r
        | [] => [[x]]
        end
  end.

(** The words joined by single spaces. *)
Definition unwords (ws : list jsstring) : jsstring := join [32%N] ws.

(** ** Cells of a view-source dump *)

(** Two texts that agree up to the case of ASCII letters. *)
Definition same_text_i (a b : jsstring) : Prop := List.map upper a = List.map upper b.

(** [f] lies wholly before [g] in the scanned text. *)
Definition before (f g : found) : Prop :=
  m_start f < m_start g /\ m_end f <= m_start g.

(** [String.prototype.split] at line feeds. *)
Fixpoint lines_from (cur : jsstring) (s : jsstring) : list jsstring :=
  match s with
  | [] => [rev cur]
  | x :: s' =>
      if N.eqb x 10 then rev cur :: lines_from [] s'
      else lines_from (x :: cur) s'
  end.

Definition lines_of (s : jsstring) : list jsstring := lines_from [] s.


(** ** Synthetic view-source dumps *)







(** A line-content cell of a dump, with the text that precedes it: the
    opening tag is [c_open] (the text [<td]), the attributes before the class
    attribute, [c_class] (the text [class=]), the class value between two
    quotes, the attributes after it and [>]; then come the content and
    [c_close] (the text [</td>]). *)
Record Cell : Type := MkCell {
  c_gap : jsstring;
  c_open : jsstring;
  c_attrs : jsstring;
  c_class : jsstring;
  c_quote : N;
  c_value : jsstring;
  c_quote2 : N;
  c_rest : jsstring;
  c_inner : jsstring;
  c_close : jsstring
}.

(** The text between [<td] and [>]. *)
Definition tag_attrs (c : Cell) : jsstring :=
  c_attrs c ++ c_class c ++ [c_quote c] ++ c_value c ++ [c_quote2 c] ++ c_rest c.

Definition render (c : Cell) : jsstring :=
  c_open c ++ tag_attrs c ++ [62%N] ++ c_inner c ++ c_close c.

(** The page made of the cells in order, each after its preceding text, and
    of a last text. *)
Fixpoint dump (cells : list Cell) (tail : jsstring) : jsstring :=
  match cells with
  | [] => tail
  | c :: cs => c_gap c ++ render c ++ dump cs tail
  end.






(** A dump in which a cell holds a line feed. *)
Definition two_line_cell : Cell :=
  MkCell (js "<table><tr>") (js "<td") (js " ") (js "class=") 34 (js "line-content") 34 []
         (js "a" ++ newline ++ js "b") (js "</td>").



(** ** The rule table of the category mapper *)

(** The rules of [mapCategory] as a table, in the order of the source: the
    test on the label and the slot it selects. *)
Definition category_rules : list ((jsstring -> bool) * (Group * Category)) :=
  [ (fun t => includes t (js "tank"), (DoW_DoM, Tank));
    (fun t => includes t (js "healer"), (DoW_DoM, Healer));
    (fun t => includes t (js "melee dps"), (DoW_DoM, Melee_DPS));
    (fun t => includes t (js "physical ranged dps"), (DoW_DoM, Physical_Ranged_DPS));
    (fun t => includes t (js "magical ranged dps"), (DoW_DoM, Magical_Ranged_DPS));
    (fun t => includes t (js "limited"), (DoW_DoM, Limited_Jobs));
    (fun t => includes t (js "disciples of the hand") || str_eqb t (js "hand"),
     (DoH_DoL, Hand_DoH));
    (fun t => includes t (js "disciples of the land") || str_eqb t (js "land"),
     (DoH_DoL, Land_DoL)) ].

(** The slots whose rule accepts a label. *)
Definition matching_slots (t : jsstring) : list (Group * Category) :=
  List.map snd (filter (fun rule => fst rule t) category_rules).

(** The response to a request without a character identifier. *)
Definition missing_id_response : Response :=
  MkResponse 400 None (ErrorBody (js "Missing character ID.") None).

Definition no_document : jsstring -> Document := fun _ => Doc [] [] [].

(** Lower case of the ASCII letters, for texts without other cased letters. *)
Definition ascii_lower (s : jsstring) : jsstring :=
  List.map (fun c => if in_range 65 90 c then (c + 32)%N else c) s.

(** ** Values of the level rule *)

(** The value of a text of decimal digits. *)
Definition decimal_value (s : jsstring) : Z :=
  fold_left (fun acc x => (10 * acc + digit_value x)%Z) s 0%Z.

(** A captured group of the ratio pattern: a digit followed by digits and
    commas. *)
Definition digits_and_commas (g : jsstring) : Prop :=
  exists d rest,
    g = d :: rest /\ isDigit d = true /\ forallb isDigitOrComma rest = true.

(** A text without its commas. *)
Definition without_commas (s : jsstring) : jsstring :=
  filter (fun c => negb (N.eqb c 44)) s.

(** A text the level rule accepts and whose value is not 0. *)
Definition level_candidate (raw : jsstring) : bool :=
  test re_level raw && num_truthy (parseInt raw).

(** * Vocabulary of the further properties *)

From Stdlib Require DecimalPos DecimalN.

(** ** Sub-blocks of a job item *)

(** A sub-block the name rule accepts: its normalised text has an ASCII
    letter and the ratio pattern does not match it. *)
Definition name_block (d : DivNode) : bool :=
  let raw := norm (Some (div_text d)) in
  negb (ratio raw) && existsb isAsciiLetter raw.

(** The tooltip read on a sub-block: the first non-empty one of its three
    attributes, and its normalised text when there is none. *)
Definition tooltip_of (d : DivNode) : jsstring :=
  or_empty
    (or_else (div_data_tooltip d)
       (or_else (div_title d)
          (or_else (div_aria_label d) (Some (norm (Some (div_text d))))))).

(** The Number for a non-negative integer: the integer itself up to [2^53],
    its rounding beyond; never [NaN]. *)
Definition natural_number (n : number) : Prop :=
  exists z, n = to_number z /\ (0 <= z)%Z.

(** ** Normalised texts *)

(** A text without white space at either end, in which white space occurs
    only as single spaces (U+0020) between other units.  [after_space] tells
    that the text read so far is empty or ends with a space. *)
Fixpoint tidy_from (after_space : bool) (s : jsstring) : bool :=
  match s with
  | [] => negb after_space
  | x :: s' =>
      if isWhiteSpace x then negb after_space && N.eqb x 32 && tidy_from true s'
      else tidy_from false s'
  end.

Definition tidy (s : jsstring) : bool :=
  match s with
  | [] => true
  | _ :: _ => tidy_from true s
  end.

(** The units of a text that are not white space. *)
Definition ink (s : jsstring) : jsstring :=
  filter (fun x => negb (isWhiteSpace x)) s.

(** ** Sections of the page *)

Definition Category_eqb (a b : Category) : bool :=
  match a, b with
  | Tank, Tank | Healer, Healer | Melee_DPS, Melee_DPS
  | Physical_Ranged_DPS, Physical_Ranged_DPS
  | Magical_Ranged_DPS, Magical_Ranged_DPS
  | Limited_Jobs, Limited_Jobs | Hand_DoH, Hand_DoH | Land_DoL, Land_DoL => true
  | _, _ => false
  end.

(** Whether the label of a header selects the category [key]. *)
Definition headed (toLowerCase : jsstring -> jsstring) (key : Category)
           (h4 : H4Node) : bool :=
  match mapCategory (toLowerCase (norm (Some (h4_text h4)))) with
  | Some (_, k) => Category_eqb key k
  | None => false
  end.

(** The job entries of a list: one per item with a name, in order. *)
Definition named_jobs (lis : list LiNode) : list Job :=
  List.map job_of (filter (fun p => str_truthy (name p)) (List.map parseLi lis)).

(** The job entries a header contributes to the category [key]. *)
Definition section_jobs (toLowerCase : jsstring -> jsstring) (key : Category)
           (h4 : H4Node) : list Job :=
  if headed toLowerCase key h4 then
    match h4_next_ul h4 with
    | Some lis => named_jobs lis
    | None => []
    end
  else [].

(** A well-formed job entry: a tidy name with an ASCII letter, a tooltip that
    is not empty, a level that is an integer between 0 and 999, exp and max
    that are Numbers for non-negative integers, and an icon that is absent or
    not empty. *)
Definition job_ok (j : Job) : Prop :=
  existsb isAsciiLetter (job_name j) = true /\
  tidy (job_name j) = true /\
  str_truthy (job_name_tooltip j) = true /\
  (exists l, job_level j = Num l /\ (0 <= l <= 999)%Z) /\
  natural_number (job_exp j) /\
  natural_number (job_exp_max j) /\
  job_icon j <> Some [].

(** ** Tags *)

(** The length of the tag at the start of a text, if there is one: a [<], at
    least one unit other than [>], and the first [>] after them. *)
Definition tag_len (s : jsstring) : option nat :=
  match s with
  | x :: s1 =>
      if N.eqb 60 x then
        let n := run_len notGt s1 in
        if 1 <=? n then
          match skipn n s1 with
          | _ :: _ => Some (n + 2)
          | [] => None
          end
        else None
      else None
  | [] => None
  end.

(** Whether a tag starts somewhere in a text. *)
Fixpoint has_tag (s : jsstring) : bool :=
  match tag_len s with
  | Some _ => true
  | None =>
      match s with
      | [] => false
      | _ :: s' => has_tag s'
      end
  end.

(** * Properties *)

(** ** The model at work *)

Example norm_example :
  norm (Some [32; 32; 97; 32; 32; 32; 98; 10; 32; 99; 32]%N) = js "a b c".
Proof. vm_compute. reflexivity. Qed.

Example parseLi_gladiator :
  parseLi (Li None [plain_div "0"; plain_div "-"; plain_div "Gladiator"; plain_div "0 / 0"])
  = MkParsed None (Num 0) (js "Gladiator") (js "Gladiator") (Num 0) (Num 0).
Proof. vm_compute. reflexivity. Qed.

Example parseLi_exp :
  parseLi (Li None [plain_div "50"; plain_div "Paladin"; plain_div "1,234 / 5,600"])
  = MkParsed None (Num 50) (js "Paladin") (js "Paladin") (Num 1234) (Num 5600).
Proof. vm_compute. reflexivity. Qed.

Example parseLi_two_ratios :
  parseLi (Li None [plain_div "1 / 2"; plain_div "3 / 4"])
  = MkParsed None (Num 0) [] [] (Num 3) (Num 4).
Proof. vm_compute. reflexivity. Qed.

Example failure_messages :
  failure_message (Some 404%N) None = js "Upstream returned HTTP 404" /\
  failure_message None (Some (js "ECONNABORTED")) = js "Request timed out" /\
  failure_message None None = js "Fetch/parse failed".
Proof. vm_compute. repeat split. Qed.

Example aggregate_one_tank :
  let doc := Doc (js " Some  Name ") []
               [H4 (js "Tank") None
                   (Some [Li None [plain_div "50"; plain_div "Paladin";
                                   plain_div "1,234 / 5,600"]])] in
  let out := aggregate ascii_lower doc in
  details_name out = js "Some Name" /\
  details_world out = [] /\
  jobs (o_tank out)
  = [MkJob None (Num 50) (js "Paladin") (js "Paladin") (Num 1234) (Num 5600)] /\
  jobs (o_healer out) = [].
Proof. vm_compute. repeat split. Qed.

Example reconstruct_sample :
  reconstructFromViewSource (fun s => s) sample_dump = js "ab" ++ [10%N] ++ js "cd".
Proof. vm_compute. reflexivity. Qed.

Example reconstruct_plain :
  reconstructFromViewSource (fun s => s) (js "<html><td class='x'>1</td></html>")
  = js "<html><td class='x'>1</td></html>".
Proof. vm_compute. reflexivity. Qed.

(** A request with an identifier does call the network, once, with the
    Lodestone URL of the character. *)
Example handler_fetches_for_an_id :
  fst (run (fun _ => Rejected (Some 404%N) None)
         (handler (fun s => s) (fun s => s) (fun s => s) no_document (Some (js "12345"))))
  = [js "https://na.finalfantasyxiv.com/lodestone/character/12345/class_job/"].
Proof. vm_compute. reflexivity. Qed.

(** ** Soundness of the matcher *)

Lemma rep_sound (g : bool) (p : N -> bool) :
  forall s min max i c k z,
    rep g p min max i s c k = Some z ->
    exists w s', s = w ++ s' /\ forallb p w = true /\ k (i + length w) s' c = Some z.
Proof.
  assert (stop : forall s i c (k : cont) z, k i s c = Some z ->
            exists w s', s = w ++ s' /\ forallb p w = true
                         /\ k (i + length w) s' c = Some z).
  { intros s i c k z H. exists [], s. cbn. rewrite Nat.add_0_r. auto. }
  assert (more : forall x (s' : jsstring) i c (k : cont) z,
            p x = true ->
            (exists w s'', s' = w ++ s'' /\ forallb p w = true
                           /\ k (S i + length w) s'' c = Some z) ->
            exists w s'', x :: s' = w ++ s'' /\ forallb p w = true
                          /\ k (i + length w) s'' c = Some z).
  { intros x s' i c k z Hx (w & s'' & -> & Hw & Hk).
    exists (x :: w), s''. cbn. rewrite Hx, Hw, Nat.add_succ_r. auto. }
  induction s as [|x s' IH]; intros min max i c k z H; cbn in H.
  - destruct (exhausted max); [now apply stop|].
    destruct min; [|discriminate].
    destruct g; [now apply stop|].
    destruct (k i [] c) eqn:E; [|discriminate]. apply stop. congruence.
  - destruct (exhausted max); [now apply stop|].
    destruct min as [|min'].
    + destruct g.
      * destruct (p x) eqn:Hx.
        -- destruct (rep true p 0 (dec max) (S i) s' c k) eqn:E.
           ++ inversion H; subst. apply more; eauto.
           ++ now apply stop.
        -- now apply stop.
      * destruct (k i (x :: s') c) eqn:E.
        -- apply stop. congruence.
        -- destruct (p x) eqn:Hx; [|discriminate]. apply more; eauto.
    + destruct (p x) eqn:Hx; [|discriminate]. apply more; eauto.
Qed.

(** Soundness of the matcher: when [m r] succeeds, it has split the input
    into a text of the shape of [r] and a rest on which the continuation
    succeeded, with the captures of [r] added. *)
Lemma m_sound (r : re) :
  forall i s c k z,
    m r i s c k = Some z ->
    exists w s' cs,
      s = w ++ s' /\ shape r w cs /\ k (i + length w) s' (cs ++ c) = Some z.
Proof.
  induction r as [|p|a IHa b IHb|a IHa b IHb|g mn mx p|n a IHa| |];
    intros i s c k z H; cbn in H.
  - exists [], s, []. cbn. rewrite Nat.add_0_r. auto.
  - destruct s as [|x s']; [discriminate|].
    destruct (p x) eqn:Hx; [|discriminate].
    exists [x], s', []. cbn. rewrite Nat.add_1_r. eauto 6.
  - apply IHa in H as (w1 & s1 & c1 & -> & Hs1 & H).
    apply IHb in H as (w2 & s2 & c2 & -> & Hs2 & H).
    exists (w1 ++ w2), s2, (c2 ++ c1).
    rewrite length_app, Nat.add_assoc, <- !app_assoc.
    cbn. eauto 10.
  - destruct (m a i s c k) eqn:E.
    + inversion H; subst. apply IHa in E as (w & s' & cs & ? & ? & ?).
      exists w, s', cs. cbn. auto.
    + apply IHb in H as (w & s' & cs & ? & ? & ?).
      exists w, s', cs. cbn. auto.
  - apply rep_sound in H as (w & s' & ? & ? & ?). exists w, s', []. cbn. auto.
  - apply IHa in H as (w & s' & cs & -> & Hs & H).
    exists w, s', ((n, w) :: cs). cbn [shape app]. repeat split; eauto.
    replace (i + length w - i) with (length w) in H by lia.
    now rewrite firstn_app, Nat.sub_diag, firstn_all, app_nil_r in H.
  - destruct (Nat.eqb i 0); [|discriminate].
    exists [], s, []. cbn. rewrite Nat.add_0_r. auto.
  - destruct s; [|discriminate].
    exists [], [], []. cbn. rewrite Nat.add_0_r. auto.
Qed.

Lemma exec_at_sound (r : re) (i : nat) (s : jsstring) (e : nat) (c : caps) :
  exec_at r i s = Some (e, c) ->
  exists w s', s = w ++ s' /\ shape r w c /\ e = i + length w.
Proof.
  unfold exec_at. intros H.
  apply m_sound in H as (w & s' & cs & Hs & Hw & Hk).
  unfold accept in Hk. rewrite app_nil_r in Hk. inversion Hk; subst.
  exists w, s'. auto.
Qed.

(** A match found by [search] is a piece of the input of the pattern's shape. *)
Lemma search_sound (r : re) :
  forall s i f,
    search r i s = Some f ->
    exists pre w post,
      s = pre ++ w ++ post /\ shape r w (m_caps f) /\
      m_start f = i + length pre /\ m_end f = m_start f + length w.
Proof.
  induction s as [|x s' IH]; intros i f H; cbn in H.
  - destruct (exec_at r i []) as [[e c]|] eqn:E; [|discriminate].
    inversion H; subst; clear H.
    apply exec_at_sound in E as (w & s' & Hs & Hw & ->).
    exists [], w, s'. cbn. rewrite Nat.add_0_r. auto.
  - destruct (exec_at r i (x :: s')) as [[e c]|] eqn:E.
    + inversion H; subst; clear H.
      apply exec_at_sound in E as (w & s'' & Hs & Hw & ->).
      exists [], w, s''. cbn. rewrite Nat.add_0_r. auto.
    + apply IH in H as (pre & w & post & -> & Hw & Hs & He).
      exists (x :: pre), w, post. cbn. rewrite Hs, He. repeat split; auto; lia.
Qed.

Lemma shape_seq (a b : re) (w : jsstring) (cs : caps) :
  shape (Seq a b) w cs ->
  exists w1 w2 c1 c2, w = w1 ++ w2 /\ shape a w1 c1 /\ shape b w2 c2 /\ cs = c2 ++ c1.
Proof. exact (fun H => H). Qed.

Lemma shape_grp (n : nat) (a : re) (w : jsstring) (cs : caps) :
  shape (Grp n a) w cs -> exists c1, shape a w c1 /\ cs = (n, w) :: c1.
Proof. exact (fun H => H). Qed.

Lemma shape_rep (g : bool) (mn : nat) (mx : option nat) (p : N -> bool)
      (w : jsstring) (cs : caps) :
  shape (Rep g mn mx p) w cs -> forallb p w = true /\ cs = [].
Proof. exact (fun H => H). Qed.

Lemma shape_cls (p : N -> bool) (w : jsstring) (cs : caps) :
  shape (Cls p) w cs -> (exists x, w = [x] /\ p x = true) /\ cs = [].
Proof. exact (fun H => H). Qed.

Lemma shape_lit_i (t : jsstring) :
  forall w cs, shape (lit_i t) w cs -> same_text_i w t /\ cs = [].
Proof.
  unfold same_text_i.
  induction t as [|c t IH]; intros w cs H.
  - destruct H as [-> ->]. auto.
  - destruct t as [|c' t'].
    + destruct H as [(x & -> & Hx) ->]. apply N.eqb_eq in Hx. cbn. now rewrite Hx.
    + apply shape_seq in H as (w1 & w2 & c1 & c2 & -> & H1 & H2 & ->).
      destruct H1 as [(x & -> & Hx) ->]. apply N.eqb_eq in Hx.
      apply IH in H2 as [H2 ->]. cbn [app List.map]. now rewrite Hx, H2.
Qed.

(** Every element of a scan is a match of the pattern in the scanned text,
    at or after the point the scan resumes from. *)
Lemma scan_from (r : re) :
  forall s k i f,
    In f (scan r k i s) ->
    exists pre w post,
      s = pre ++ w ++ post /\ k <= length pre /\ shape r w (m_caps f) /\
      m_start f = i + length pre /\ m_end f = m_start f + length w.
Proof.
  assert (here : forall s i e c,
            exec_at r i s = Some (e, c) ->
            exists pre w post,
              s = pre ++ w ++ post /\ 0 <= length pre /\ shape r w c /\
              i = i + length pre /\ e = i + length w).
  { intros s i e c E. apply exec_at_sound in E as (w & s' & -> & Hw & ->).
    exists [], w, s'. cbn. rewrite Nat.add_0_r. repeat split; auto. }
  assert (later : forall x (s' : jsstring) k k' i f,
            k' <= S k ->
            (exists pre w post,
                s' = pre ++ w ++ post /\ k <= length pre /\ shape r w (m_caps f) /\
                m_start f = S i + length pre /\ m_end f = m_start f + length w) ->
            exists pre w post,
              x :: s' = pre ++ w ++ post /\ k' <= length pre /\ shape r w (m_caps f) /\
              m_start f = i + length pre /\ m_end f = m_start f + length w).
  { intros x s' k k' i f Hk (pre & w & post & -> & Hp & Hw & Hs & He).
    exists (x :: pre), w, post. cbn. repeat split; auto; lia. }
  induction s as [|x s' IH]; intros k i f H.
  - destruct k as [|k]; [|contradiction]. cbn in H.
    destruct (exec_at r i []) as [[e c]|] eqn:E; [|contradiction].
    destruct H as [<-|[]]. cbn. now apply here.
  - destruct k as [|k]; cbn [scan] in H.
    + destruct (exec_at r i (x :: s')) as [[e c]|] eqn:E.
      * destruct H as [<-|H]; [cbn; now apply here|].
        apply IH in H. eapply later; [|exact H]. lia.
      * apply IH in H. eapply later; [|exact H]. lia.
    + apply IH in H. eapply later; [|exact H]. lia.
Qed.

(** The matches of a scan come in the order of the text, one after the end
    of the other. *)
Lemma scan_sorted (r : re) :
  forall s k i, StronglySorted before (scan r k i s).
Proof.
  induction s as [|x s' IH]; intros k i.
  - destruct k; cbn; [|constructor].
    destruct (exec_at r i []) as [[e c]|]; repeat constructor.
  - destruct k as [|k]; cbn [scan]; [|apply IH].
    destruct (exec_at r i (x :: s')) as [[e c]|]; [|apply IH].
    constructor; [apply IH|].
    apply Forall_forall. intros g Hg.
    apply scan_from in Hg as (pre & w & post & _ & Hk & _ & Hs & _).
    unfold before. cbn. lia.
Qed.

(** ** Digits and [parseInt] *)

Lemma digit_bounds (x : N) : isDigit x = true -> (48 <= x <= 57)%N.
Proof.
  unfold isDigit, in_range. intros H. apply andb_prop in H as [H1 H2].
  apply N.leb_le in H1, H2. lia.
Qed.

Lemma digit_not_space (x : N) : isDigit x = true -> isWhiteSpace x = false.
Proof.
  intros H. apply digit_bounds in H. unfold isWhiteSpace, in_range.
  repeat (apply orb_false_intro);
    try (apply N.eqb_neq; lia);
    apply andb_false_iff; first [left; apply N.leb_gt; lia | right; apply N.leb_gt; lia].
Qed.

Lemma digits_prefix_all (s : jsstring) :
  forallb isDigit s = true ->
  forall a,
    digits_prefix (Some a) s
    = Some (fold_left (fun acc x => (10 * acc + digit_value x)%Z) s a).
Proof.
  induction s as [|x s' IH]; cbn; intros H a; [reflexivity|].
  apply andb_prop in H as [Hx Hs]. rewrite Hx. now rewrite IH.
Qed.

(** [parseInt] of a non-empty text of digits is the Number for its decimal
    value. *)
Lemma parseInt_digits (s : jsstring) :
  s <> [] -> forallb isDigit s = true -> parseInt s = to_number (decimal_value s).
Proof.
  destruct s as [|x s']; [contradiction|]. intros _ H.
  pose proof H as H'. cbn in H'. apply andb_prop in H' as [Hx Hs].
  unfold parseInt, trimStart. cbn [dropWhile]. rewrite (digit_not_space _ Hx).
  pose proof (digit_bounds _ Hx) as B.
  replace (N.eqb x 45) with false by (symmetry; apply N.eqb_neq; lia).
  replace (N.eqb x 43) with false by (symmetry; apply N.eqb_neq; lia).
  cbn [digits_prefix]. rewrite Hx, digits_prefix_all by exact Hs.
  unfold decimal_value. cbn [fold_left].
  replace (10 * 0 + digit_value x)%Z with (digit_value x) by lia.
  f_equal. lia.
Qed.

Lemma digits_no_slash (s : jsstring) : forallb isDigit s = true -> ~ In 47%N s.
Proof.
  intros H Hin. rewrite forallb_forall in H. apply H in Hin. discriminate.
Qed.

Lemma digits_no_letter (s : jsstring) :
  forallb isDigit s = true -> existsb isAsciiLetter s = false.
Proof.
  induction s as [|x s' IH]; cbn; [reflexivity|].
  intros H. apply andb_prop in H as [Hx Hs]. rewrite (IH Hs), orb_false_r.
  unfold isDigit, isAsciiLetter, in_range in *.
  apply andb_prop in Hx as [H1 H2]. apply N.leb_le in H1, H2.
  apply orb_false_intro; apply andb_false_iff; left; apply N.leb_gt; lia.
Qed.

(** ** The patterns of [parseLi] *)

Lemma search_letter (s : jsstring) :
  forall i,
    match search re_letter i s with Some _ => true | None => false end
    = existsb isAsciiLetter s.
Proof.
  induction s as [|x s' IH]; intros i; cbn.
  - reflexivity.
  - destruct (isAsciiLetter x); cbn; [reflexivity|]. apply IH.
Qed.

(** [/[A-Za-z]/.test(s)] holds exactly when some unit of [s] is an ASCII letter. *)
Lemma test_letter (s : jsstring) : test re_letter s = existsb isAsciiLetter s.
Proof. unfold test. apply search_letter. Qed.

Lemma search_level_later (s : jsstring) :
  forall i, search re_level (S i) s = None.
Proof.
  induction s as [|x s' IH]; intros i; cbn; [reflexivity|]. apply IH.
Qed.

(** The level pattern accepts exactly the texts of one to three digits. *)
Lemma test_level (s : jsstring) :
  test re_level s =
  match s with
  | [a] => isDigit a
  | [a; b] => isDigit a && isDigit b
  | [a; b; c] => isDigit a && isDigit b && isDigit c
  | _ => false
  end.
Proof.
  unfold test.
  destruct s as [|a [|b [|c [|d s']]]]; cbn;
    repeat match goal with
      | |- context [isDigit ?x] => destruct (isDigit x); cbn
      end;
    rewrite ?search_level_later; reflexivity.
Qed.

Lemma test_level_digits (s : jsstring) :
  test re_level s = true -> forallb isDigit s = true.
Proof.
  rewrite test_level.
  destruct s as [|a [|b [|c [|d s']]]]; cbn; try discriminate;
    repeat match goal with
      | |- context [isDigit ?x] => destruct (isDigit x); cbn
      end;
    intros H; try discriminate; reflexivity.
Qed.

Lemma level_value_bound (raw : jsstring) :
  test re_level raw = true -> (0 <= decimal_value raw <= 999)%Z.
Proof.
  rewrite test_level. unfold decimal_value, digit_value.
  destruct raw as [|a [|b [|c [|d s']]]]; try discriminate; intros H;
    unfold isDigit, in_range in H;
    repeat match goal with
      | D : _ && _ = true |- _ => apply andb_prop in D as [? ?]
      | D : N.leb _ _ = true |- _ => apply N.leb_le in D
      end;
    cbn [fold_left]; lia.
Qed.

(** A level text is converted exactly. *)
Lemma parseInt_level (raw : jsstring) :
  test re_level raw = true -> parseInt raw = Num (decimal_value raw).
Proof.
  intros H. rewrite parseInt_digits; [|intros ->; rewrite test_level in H; discriminate
                                      |now apply test_level_digits].
  pose proof (level_value_bound _ H) as B. unfold to_number, safe_integer.
  replace (Z.abs (decimal_value raw) <=? 9007199254740992)%Z with true; [reflexivity|].
  symmetry. apply Z.leb_le. lia.
Qed.

Lemma shape_exp (w : jsstring) (cs : caps) :
  shape re_exp w cs ->
  exists g1 sp1 sp2 g2,
    w = g1 ++ sp1 ++ [47%N] ++ sp2 ++ g2 /\
    cs = [(2, g2); (1, g1)] /\
    digits_and_commas g1 /\ digits_and_commas g2 /\
    forallb isWhiteSpace sp1 = true /\ forallb isWhiteSpace sp2 = true.
Proof.
  unfold re_exp, star, chr. intros H.
  apply shape_seq in H as (g1 & w1 & c1 & c1' & -> & H1 & H & ->).
  apply shape_grp in H1 as (c & H1 & ->).
  apply shape_seq in H1 as (d1 & r1 & ? & ? & -> & Hd1 & Hr1 & ->).
  apply shape_cls in Hd1 as [(x1 & -> & Hx1) ->]. apply shape_rep in Hr1 as [Hr1 ->].
  apply shape_seq in H as (sp1 & w2 & ? & c2' & -> & Hs1 & H & ->).
  apply shape_rep in Hs1 as [Hs1 ->].
  apply shape_seq in H as (sl & w3 & ? & c3' & -> & Hsl & H & ->).
  apply shape_cls in Hsl as [(y & -> & Hy) ->]. apply N.eqb_eq in Hy. subst y.
  apply shape_seq in H as (sp2 & g2 & ? & c4' & -> & Hs2 & H2 & ->).
  apply shape_rep in Hs2 as [Hs2 ->].
  apply shape_grp in H2 as (c & H2 & ->).
  apply shape_seq in H2 as (d2 & r2 & ? & ? & -> & Hd2 & Hr2 & ->).
  apply shape_cls in Hd2 as [(x2 & -> & Hx2) ->]. apply shape_rep in Hr2 as [Hr2 ->].
  exists ([x1] ++ r1), sp1, sp2, ([x2] ++ r2).
  repeat split; auto; [exists x1, r1 | exists x2, r2]; auto.
Qed.

Lemma shape_exp_slash (w : jsstring) (cs : caps) : shape re_exp w cs -> In 47%N w.
Proof.
  intros H. apply shape_exp in H as (g1 & sp1 & sp2 & g2 & -> & _).
  apply in_or_app. right. apply in_or_app. right. cbn. auto.
Qed.

Lemma ratio_slash (raw : jsstring) : ratio raw = true -> In 47%N raw.
Proof.
  unfold ratio, exp_pair, match_.
  destruct (search re_exp 0 raw) as [f|] eqn:E; [|discriminate]. intros _.
  apply search_sound in E as (pre & w & post & -> & Hw & _).
  apply in_or_app. right. apply in_or_app. left. eapply shape_exp_slash, Hw.
Qed.

(** The level rule and the ratio rule never accept the same text. *)
Lemma level_not_ratio (raw : jsstring) :
  test re_level raw = true -> ratio raw = false.
Proof.
  intros H. destruct (ratio raw) eqn:E; [|reflexivity].
  exfalso. eapply digits_no_slash; [apply test_level_digits, H|].
  now apply ratio_slash.
Qed.

(** Removing the matches of [re_comma] removes the commas. *)
Lemma strip_commas (s : jsstring) :
  replace_all re_comma [] s = filter (fun c => negb (N.eqb c 44)) s.
Proof.
  unfold replace_all.
  enough (G : forall i, replace_from re_comma [] 0 i s
                        = filter (fun c => negb (N.eqb c 44)) s) by apply G.
  induction s as [|x s' IH]; intros i; [reflexivity|].
  cbn [replace_from filter]. unfold exec_at, re_comma, chr. cbn [m].
  rewrite (N.eqb_sym x 44). destruct (N.eqb 44 x); cbn [negb].
  - unfold accept. replace (Nat.eqb (S i) i) with false
      by (symmetry; apply Nat.eqb_neq; lia).
    replace (S i - i - 1) with 0 by lia. cbn [app]. apply IH.
  - now rewrite IH.
Qed.

(** The conversion of a captured group: its digits, read in base ten. *)
Lemma parseInt_strip_commas (g : jsstring) :
  digits_and_commas g ->
  parseInt (replace_all re_comma [] g) = to_number (decimal_value (without_commas g)).
Proof.
  intros (d & rest & -> & Hd & Hrest). rewrite strip_commas. fold (without_commas (d :: rest)).
  apply parseInt_digits.
  - unfold without_commas. cbn [filter].
    pose proof (digit_bounds _ Hd) as B.
    replace (N.eqb d 44) with false by (symmetry; apply N.eqb_neq; lia).
    discriminate.
  - unfold without_commas. apply forallb_forall. intros x Hx.
    apply filter_In in Hx as [Hin Hx].
    destruct Hin as [<-|Hin]; [exact Hd|].
    rewrite forallb_forall in Hrest. specialize (Hrest x Hin).
    unfold isDigitOrComma in Hrest. apply negb_true_iff in Hx. rewrite Hx in Hrest.
    now rewrite orb_false_r in Hrest.
Qed.

(** What the ratio rule reads in a text it accepts: two groups of digits and
    commas around a slash, each converted after its commas are removed. *)
Lemma exp_pair_sound (raw : jsstring) (e mx : number) :
  exp_pair raw = Some (e, mx) ->
  exists pre g1 sp1 sp2 g2 post,
    raw = pre ++ (g1 ++ sp1 ++ [47%N] ++ sp2 ++ g2) ++ post /\
    digits_and_commas g1 /\ digits_and_commas g2 /\
    forallb isWhiteSpace sp1 = true /\ forallb isWhiteSpace sp2 = true /\
    e = to_number (decimal_value (without_commas g1)) /\
    mx = to_number (decimal_value (without_commas g2)).
Proof.
  unfold exp_pair, match_.
  destruct (search re_exp 0 raw) as [f|] eqn:E; [|discriminate].
  apply search_sound in E as (pre & w & post & -> & Hw & _).
  apply shape_exp in Hw as (g1 & sp1 & sp2 & g2 & -> & Hc & H1 & H2 & Hs1 & Hs2).
  rewrite Hc. cbn [group Nat.eqb or_empty].
  rewrite (parseInt_strip_commas _ H1), (parseInt_strip_commas _ H2).
  intros H. inversion H; subst.
  exists pre, g1, sp1, sp2, g2, post. repeat split; auto.
Qed.

(** ** The callback of [parseLi] *)

Lemma visit_raw_name (raw : jsstring) (d : DivNode) (st : Fields) :
  ratio raw = true \/ existsb isAsciiLetter raw = false \/ isDash raw = true ->
  f_name (visit_raw raw d st) = f_name st.
Proof.
  intros H. unfold visit_raw.
  destruct (negb (num_truthy (f_level st)) && test re_level raw); [reflexivity|].
  unfold ratio in H. destruct (exp_pair raw) as [[e mx]|]; [reflexivity|].
  destruct H as [H|[H|H]]; [discriminate| |].
  - rewrite test_letter, H, andb_false_r. reflexivity.
  - rewrite H. cbn. rewrite !andb_false_r. reflexivity.
Qed.

Lemma fold_visit_name (divs : list DivNode) :
  forall st,
    forallb (fun d => nameless (norm (Some (div_text d)))) divs = true ->
    f_name (fold_left visit_div divs st) = f_name st.
Proof.
  induction divs as [|d divs IH]; intros st H; cbn in *; [reflexivity|].
  apply andb_prop in H as [Hd H]. rewrite (IH _ H). unfold visit_div.
  apply visit_raw_name. unfold nameless in Hd.
  apply orb_prop in Hd as [Hd|Hd]; [apply orb_prop in Hd as [Hd|Hd]|]; auto.
  right. left. now apply negb_true_iff.
Qed.

Lemma visit_raw_exp_keep (raw : jsstring) (d : DivNode) (st : Fields) :
  ratio raw = false ->
  f_exp (visit_raw raw d st) = f_exp st /\ f_max (visit_raw raw d st) = f_max st.
Proof.
  unfold ratio, visit_raw. intros H.
  destruct (negb (num_truthy (f_level st)) && test re_level raw); [now split|].
  destruct (exp_pair raw) as [[e mx]|]; [discriminate|].
  destruct (_ && _); now split.
Qed.

Lemma visit_raw_exp_set (raw : jsstring) (d : DivNode) (st : Fields) (e mx : number) :
  exp_pair raw = Some (e, mx) ->
  f_exp (visit_raw raw d st) = e /\ f_max (visit_raw raw d st) = mx.
Proof.
  intros H. unfold visit_raw.
  assert (L : test re_level raw = false).
  { destruct (test re_level raw) eqn:E; [|reflexivity].
    apply level_not_ratio in E. unfold ratio in E. rewrite H in E. discriminate. }
  rewrite L, andb_false_r, H. now split.
Qed.

Lemma fold_visit_exp (divs : list DivNode) (st0 : Fields) :
  let st := fold_left visit_div divs st0 in
  match find ratio_block (rev divs) with
  | Some d => exp_pair (norm (Some (div_text d))) = Some (f_exp st, f_max st)
  | None => f_exp st = f_exp st0 /\ f_max st = f_max st0
  end.
Proof.
  induction divs as [|d divs IH] using rev_ind; cbn zeta in *.
  - cbn. auto.
  - rewrite fold_left_app, rev_app_distr. cbn [fold_left rev app find].
    set (st := fold_left visit_div divs st0) in *.
    change (visit_div st d) with (visit_raw (norm (Some (div_text d))) d st).
    unfold ratio_block at 1.
    destruct (ratio (norm (Some (div_text d)))) eqn:E.
    + unfold ratio in E.
      destruct (exp_pair (norm (Some (div_text d)))) as [[e mx]|] eqn:P;
        [|discriminate].
      destruct (@visit_raw_exp_set _ d st _ _ P) as [-> ->].
      reflexivity.
    + destruct (@visit_raw_exp_keep _ d st E) as [-> ->].
      exact IH.
Qed.

Lemma visit_raw_level (raw : jsstring) (d : DivNode) (st : Fields) :
  f_level (visit_raw raw d st) =
  if negb (num_truthy (f_level st)) && test re_level raw then parseInt raw
  else f_level st.
Proof.
  unfold visit_raw.
  destruct (negb (num_truthy (f_level st)) && test re_level raw); [reflexivity|].
  destruct (exp_pair raw) as [[e mx]|]; [reflexivity|].
  destruct (_ && _); reflexivity.
Qed.

Lemma fold_visit_level (divs : list DivNode) :
  forall st z,
    f_level st = Num z ->
    f_level (fold_left visit_div divs st) =
    if Z.eqb z 0 then
      match find level_candidate (List.map (fun d => norm (Some (div_text d))) divs) with
      | Some raw => parseInt raw
      | None => Num 0
      end
    else Num z.
Proof.
  induction divs as [|d divs IH]; intros st z Hz; cbn [fold_left List.map find].
  - rewrite Hz. destruct (Z.eqb_spec z 0); [now subst|reflexivity].
  - unfold visit_div at 2. set (raw := norm (Some (div_text d))).
    pose proof (visit_raw_level raw d st) as V. rewrite Hz in V. cbn [num_truthy] in V.
    unfold level_candidate at 1. fold raw.
    destruct (Z.eqb_spec z 0) as [->|Hnz]; cbn [negb andb] in V.
    + destruct (test re_level raw) eqn:L; cbn [andb].
      * rewrite (parseInt_level _ L) in *. rewrite (IH _ _ V). cbn [num_truthy].
        destruct (Z.eqb_spec (decimal_value raw) 0) as [E|E]; cbn [negb];
          rewrite ?(parseInt_level _ L); reflexivity.
      * now rewrite (IH _ _ V).
    + rewrite (IH _ _ V). destruct (Z.eqb_spec z 0); [contradiction|reflexivity].
Qed.

Lemma forallb_texts (p : jsstring -> bool) (li : LiNode) :
  forallb p (block_texts li)
  = forallb (fun d => p (norm (Some (div_text d)))) (li_divs li).
Proof.
  unfold block_texts.
  induction (li_divs li) as [|d divs IH]; cbn [forallb List.map]; [reflexivity|].
  now rewrite IH.
Qed.

Lemma visit_li_nameless (li : LiNode) :
  forallb nameless (block_texts li) = true ->
  name (parseLi li) = [] /\
  (forall key out, visit_li key out li = out) /\
  (forall key out before after,
      fold_left (visit_li key) (before ++ li :: after) out
      = fold_left (visit_li key) (before ++ after) out).
Proof.
  intros H.
  assert (Hn : name (parseLi li) = []).
  { unfold parseLi. cbn [name]. rewrite forallb_texts in H.
    now rewrite fold_visit_name. }
  assert (Hv : forall key out, visit_li key out li = out).
  { intros key out. unfold visit_li. rewrite Hn. reflexivity. }
  repeat split; auto.
  intros key out before after. rewrite !fold_left_app. cbn [fold_left].
  now rewrite Hv.
Qed.

(** ** The job-entry parser *)

(** C1: a fragment whose sub-blocks have the normalised texts "0", "-",
    "Gladiator", "0 / 0" is parsed to level 0, name "Gladiator", exp 0 and
    max 0, whatever its raw texts, attributes and icon are: the level 0 does
    not suppress the name, and the dash is not taken as the name. *)
Theorem parseLi_level_zero_keeps_name (li : LiNode) :
  block_texts li = [js "0"; js "-"; js "Gladiator"; js "0 / 0"] ->
  level (parseLi li) = Num 0 /\
  name (parseLi li) = js "Gladiator" /\
  exp (parseLi li) = Num 0 /\
  max (parseLi li) = Num 0.
Proof.
  destruct li as [img divs]. unfold block_texts. cbn [li_divs].
  destruct divs as [|d1 [|d2 [|d3 [|d4 [|d5 rest]]]]]; cbn [List.map];
    intros H; try discriminate H.
  injection H as H1 H2 H3 H4.
  unfold parseLi. cbn [li_divs fold_left level name exp max]. unfold visit_div.
  rewrite H1, H2, H3, H4. vm_compute. repeat split.
Qed.

Lemma parseLi_level_zero_keeps_name_witness :
  let li := Li (Some (js "gla.png"))
              [plain_div " 0 "; plain_div "-"; plain_div "Gladiator"; plain_div "0 / 0"] in
  block_texts li = [js "0"; js "-"; js "Gladiator"; js "0 / 0"] /\
  level (parseLi li) = Num 0 /\
  name (parseLi li) = js "Gladiator" /\
  exp (parseLi li) = Num 0 /\
  max (parseLi li) = Num 0.
Proof.
  split; [reflexivity|].
  apply (parseLi_level_zero_keeps_name
           (Li (Some (js "gla.png"))
              [plain_div " 0 "; plain_div "-"; plain_div "Gladiator"; plain_div "0 / 0"])).
  reflexivity.
Defined.

(** X3: what the level rule computes: the value of the first sub-block of
    one to three digits whose value is not 0, and 0 when there is none.  A
    sub-block of value 0 does not close the rule. *)
Lemma parseLi_level_first_nonzero (li : LiNode) :
  level (parseLi li) =
  match find level_candidate (block_texts li) with
  | Some raw => parseInt raw
  | None => Num 0
  end.
Proof.
  unfold parseLi, block_texts. cbn [level].
  now rewrite (fold_visit_level (li_divs li) fields0 0 eq_refl).
Qed.

(** C2: the guard of the level rule is [!level], which is still open after a
    first match of value 0: on the sub-blocks "0", "7", "Gladiator" the second
    pure-digit sub-block changes the level to 7. *)
Theorem parseLi_level_reopened_after_zero :
  level (parseLi (Li None [plain_div "0"; plain_div "7"; plain_div "Gladiator"])) = Num 7.
Proof. vm_compute. reflexivity. Qed.

(** C7: the ratio rule has no guard against a second match, unlike the level
    rule ([!level]) and the name rule ([!name]) beside it: on the sub-blocks
    "1 / 2", "3 / 4" the first sub-block the pattern matches is "1 / 2", whose
    pair is 1 and 2, and the parser returns 3 and 4, the pair of the later
    sub-block.  The conversion itself removes the separators: "1,234 / 5,600"
    gives 1234 and 5600. *)
Theorem parseLi_exp_overwritten_by_later_ratio :
  let li := Li None [plain_div "1 / 2"; plain_div "3 / 4"] in
  find ratio_block (li_divs li) = Some (plain_div "1 / 2") /\
  exp_pair (js "1 / 2") = Some (Num 1, Num 2) /\
  exp (parseLi li) = Num 3 /\ max (parseLi li) = Num 4 /\
  exp_pair (js "1,234 / 5,600") = Some (Num 1234, Num 5600).
Proof. vm_compute. repeat split. Qed.

(** The first-match reading does not hold of the code. *)
Lemma exp_from_first_ratio_block_fails : ~ exp_from_first_ratio_block.
Proof.
  intros H.
  specialize (H (Li None [plain_div "1 / 2"; plain_div "3 / 4"]) (plain_div "1 / 2")
                eq_refl).
  vm_compute in H. discriminate H.
Qed.

(** What the ratio rule computes: every sub-block the ratio pattern matches
    overwrites the pair, so the pair comes from the last such sub-block (0 and
    0 when there is none); the pair of a text is read from two groups of
    digits and commas around a slash, each converted to the Number for its
    decimal value after its commas are removed. *)
Lemma exp_from_last_ratio_block (li : LiNode) :
  match find ratio_block (rev (li_divs li)) with
  | Some d =>
      exp_pair (norm (Some (div_text d))) = Some (exp (parseLi li), max (parseLi li))
  | None => exp (parseLi li) = Num 0 /\ max (parseLi li) = Num 0
  end /\
  (forall raw e mx,
      exp_pair raw = Some (e, mx) ->
      exists pre g1 sp1 sp2 g2 post,
        raw = pre ++ (g1 ++ sp1 ++ [47%N] ++ sp2 ++ g2) ++ post /\
        digits_and_commas g1 /\ digits_and_commas g2 /\
        e = to_number (decimal_value (without_commas g1)) /\
        mx = to_number (decimal_value (without_commas g2))) /\
  exp_pair (js "1,234 / 5,600") = Some (Num 1234, Num 5600) /\
  (let p := parseLi (Li None [plain_div "1,234 / 5,600"]) in
   exp p = Num 1234 /\ max p = Num 5600).
Proof.
  split; [|split; [|vm_compute; auto]].
  - unfold parseLi. cbn [exp max]. apply (fold_visit_exp (li_divs li) fields0).
  - intros raw e mx H.
    apply exp_pair_sound in H as (pre & g1 & sp1 & sp2 & g2 & post & ? & ? & ? & _ & _ & ? & ?).
    exists pre, g1, sp1, sp2, g2, post. auto.
Qed.

(** C6: when every sub-block of a fragment has a numeric text or is the
    placeholder "-", the parser resolves no name, and the aggregation loop
    leaves the result as it is: a list with that item gives the same result
    as the list without it. *)
Theorem dash_only_fragment_is_dropped (li : LiNode) :
  forallb (fun raw => numeric_text raw || str_eqb raw (js "-")) (block_texts li) = true ->
  name (parseLi li) = [] /\
  (forall key out, visit_li key out li = out) /\
  (forall key out before after,
      fold_left (visit_li key) (before ++ li :: after) out
      = fold_left (visit_li key) (before ++ after) out).
Proof.
  intros H. apply visit_li_nameless.
  rewrite forallb_forall in *. intros raw Hin. specialize (H raw Hin).
  unfold nameless, numeric_text, isDash in *.
  destruct (ratio raw); [reflexivity|]. cbn [orb] in *.
  destruct (str_eqb raw (js "-")); [now rewrite orb_true_r|].
  rewrite !orb_false_r in H. apply andb_prop in H as [_ H].
  now rewrite (digits_no_letter _ H).
Qed.

Lemma dash_only_fragment_is_dropped_witness :
  let li := Li None [plain_div "0"; plain_div "-"; plain_div "0 / 0"] in
  name (parseLi li) = [] /\
  (forall key out, visit_li key out li = out) /\
  (forall key out before after,
      fold_left (visit_li key) (before ++ li :: after) out
      = fold_left (visit_li key) (before ++ after) out).
Proof.
  apply (dash_only_fragment_is_dropped
           (Li None [plain_div "0"; plain_div "-"; plain_div "0 / 0"])).
  reflexivity.
Defined.

(** C10: the name rule needs an ASCII letter.  When every sub-block of a
    fragment is claimed by the ratio rule or has a text without any of A-Z
    and a-z (a sub-block claimed by the level rule is of the second kind),
    the parser returns the empty name and the aggregation loop drops the
    item. *)
Theorem name_needs_ascii_letter (li : LiNode) :
  forallb (fun raw => ratio raw || negb (existsb isAsciiLetter raw)) (block_texts li) = true ->
  name (parseLi li) = [] /\
  (forall key out, visit_li key out li = out) /\
  (forall key out before after,
      fold_left (visit_li key) (before ++ li :: after) out
      = fold_left (visit_li key) (before ++ after) out).
Proof.
  intros H. apply visit_li_nameless.
  rewrite forallb_forall in *. intros raw Hin. specialize (H raw Hin).
  unfold nameless. now rewrite H.
Qed.

Lemma name_needs_ascii_letter_witness :
  name (parseLi katakana_item) = [] /\
  (forall key out, visit_li key out katakana_item = out) /\
  (forall key out before after,
      fold_left (visit_li key) (before ++ katakana_item :: after) out
      = fold_left (visit_li key) (before ++ after) out).
Proof.
  apply (name_needs_ascii_letter katakana_item). reflexivity.
Defined.

(** ** norm *)

Lemma rep_greedy_accept (p : N -> bool) :
  forall s min i c,
    rep true p min None i s c accept
    = if min <=? run_len p s then Some (i + run_len p s, c) else None.
Proof.
  induction s as [|x s' IH]; intros min i c; cbn.
  - destruct min; cbn; [|reflexivity]. unfold accept. now rewrite Nat.add_0_r.
  - destruct min as [|min']; destruct (p x) eqn:Hx; cbn; try reflexivity.
    + rewrite IH. cbn. now rewrite Nat.add_succ_r.
    + unfold accept. now rewrite Nat.add_0_r.
    + rewrite IH. cbn. now rewrite Nat.add_succ_r.
Qed.

Lemma replace_spaces (s : jsstring) :
  (forall i, replace_from re_spaces [32%N] 0 i s = squeeze false s) /\
  (forall i, replace_from re_spaces [32%N] (run_len isWhiteSpace s) i s = squeeze true s).
Proof.
  induction s as [|x s' [IHP IHQ]].
  - split; intros i; reflexivity.
  - assert (P : forall i, replace_from re_spaces [32%N] 0 i (x :: s') = squeeze false (x :: s')).
    { intros i. cbn [replace_from squeeze].
      unfold exec_at, re_spaces, plus. cbn [m]. rewrite rep_greedy_accept.
      cbn [run_len]. destruct (isWhiteSpace x) eqn:Hx.
      - cbn [Nat.leb]. replace (Nat.eqb (i + S (run_len isWhiteSpace s')) i) with false
          by (symmetry; apply Nat.eqb_neq; lia).
        replace (i + S (run_len isWhiteSpace s') - i - 1) with (run_len isWhiteSpace s')
          by lia.
        cbn [app]. now rewrite IHQ.
      - cbn [Nat.leb]. now rewrite IHP. }
    split; [exact P|].
    intros i. cbn [run_len]. destruct (isWhiteSpace x) eqn:Hx.
    + cbn [replace_from squeeze]. rewrite Hx. apply IHQ.
    + rewrite P. cbn [squeeze]. now rewrite Hx.
Qed.

Lemma dropWhile_all (p : N -> bool) (l : jsstring) :
  forallb p l = true -> dropWhile p l = [].
Proof.
  induction l as [|y l IH]; cbn; [reflexivity|].
  destruct (p y); cbn; [exact IH|discriminate].
Qed.

Lemma dropWhile_snoc (p : N -> bool) (x : N) (l : jsstring) :
  dropWhile p (l ++ [x]) =
  if forallb p l then (if p x then [] else [x]) else dropWhile p l ++ [x].
Proof.
  induction l as [|y l IH]; cbn; [reflexivity|].
  destruct (p y); cbn; [exact IH|reflexivity].
Qed.

Lemma forallb_rev (p : N -> bool) (l : jsstring) : forallb p (rev l) = forallb p l.
Proof.
  induction l as [|y l IH]; cbn; [reflexivity|].
  rewrite forallb_app, IH. cbn. rewrite andb_true_r. apply andb_comm.
Qed.

(** [trimEnd], read from the front of the text. *)
Lemma trimEnd_cons (x : N) (s : jsstring) :
  trimEnd (x :: s) = if forallb isWhiteSpace (x :: s) then [] else x :: trimEnd s.
Proof.
  unfold trimEnd. cbn [rev forallb]. rewrite dropWhile_snoc, forallb_rev.
  destruct (forallb isWhiteSpace s) eqn:Hs.
  - rewrite dropWhile_all by now rewrite forallb_rev.
    destruct (isWhiteSpace x); reflexivity.
  - rewrite andb_false_r, rev_app_distr. reflexivity.
Qed.

Lemma squeeze_true_head (s : jsstring) :
  (squeeze true s = [] /\ words s = []) \/
  (exists y r, squeeze true s = y :: r /\ isWhiteSpace y = false /\ words s <> []).
Proof.
  induction s as [|x s' IH]; cbn; [left; auto|].
  destruct (isWhiteSpace x) eqn:Hx; [exact IH|].
  right. exists x, (squeeze false s'). repeat split; auto.
  destruct (head_is_space s'); [discriminate|].
  destruct (words s'); discriminate.
Qed.

Lemma trimStart_squeeze (s : jsstring) : trimStart (squeeze false s) = squeeze true s.
Proof.
  destruct s as [|x s']; [reflexivity|]. unfold trimStart. cbn [squeeze].
  destruct (isWhiteSpace x) eqn:Hx.
  - cbn [dropWhile]. change (isWhiteSpace 32) with true. cbn iota.
    destruct (squeeze_true_head s') as [[-> _]|(y & r & -> & Hy & _)]; [reflexivity|].
    cbn [dropWhile]. now rewrite Hy.
  - cbn [dropWhile]. now rewrite Hx.
Qed.

Lemma unwords_cons (x : N) (w : jsstring) (r : list jsstring) :
  unwords ((x :: w) :: r) = x :: unwords (w :: r).
Proof. unfold unwords. destruct r; reflexivity. Qed.

Lemma trimEnd_squeeze (s : jsstring) :
  trimEnd (squeeze true s) = unwords (words s) /\
  trimEnd (squeeze false s) =
    match words s with
    | [] => []
    | _ :: _ => if head_is_space s then 32%N :: unwords (words s) else unwords (words s)
    end.
Proof.
  induction s as [|x s' [IH1 IH2]]; [split; reflexivity|].
  cbn [squeeze words head_is_space]. destruct (isWhiteSpace x) eqn:Hx.
  - split; [exact IH1|]. rewrite trimEnd_cons.
    destruct (squeeze_true_head s') as [[E W]|(y & r & E & Hy & W)].
    + rewrite E, W. reflexivity.
    + rewrite <- IH1, E. cbn [forallb]. rewrite Hy. cbn [andb].
      change (isWhiteSpace 32) with true. cbn [andb].
      destruct (words s'); [contradiction|reflexivity].
  - assert (T : trimEnd (x :: squeeze false s')
                = unwords (if head_is_space s' then [x] :: words s'
                           else match words s' with
                                | w :: r => (x :: w) :: r
                                | [] => [[x]]
                                end)).
    { rewrite trimEnd_cons. cbn [forallb]. rewrite Hx. cbn [andb]. rewrite IH2.
      destruct (head_is_space s'); destruct (words s') as [|w r]; try reflexivity.
      now rewrite unwords_cons. }
    split; [exact T|]. rewrite T.
    destruct (head_is_space s'); [reflexivity|].
    destruct (words s'); reflexivity.
Qed.

(** [norm] writes the words of its argument, separated by single spaces. *)
Lemma norm_words (s : jsstring) : norm (Some s) = unwords (words s).
Proof.
  unfold norm, replace_all, trim. cbn [or_empty].
  change (js " ") with [32%N].
  rewrite (proj1 (replace_spaces s)), trimStart_squeeze.
  apply trimEnd_squeeze.
Qed.

(** The words of a text hold its units that are not white space, in order,
    and no word is empty or contains white space. *)
Lemma words_concat (s : jsstring) :
  concat (words s) = filter (fun x => negb (isWhiteSpace x)) s.
Proof.
  induction s as [|x s' IH]; cbn [words filter]; [reflexivity|].
  destruct (isWhiteSpace x); cbn [negb]; [exact IH|].
  destruct (head_is_space s'); [cbn; now rewrite IH|].
  rewrite <- IH. destruct (words s'); reflexivity.
Qed.

Lemma words_proper (s : jsstring) :
  Forall (fun w => w <> [] /\ forallb (fun x => negb (isWhiteSpace x)) w = true) (words s).
Proof.
  induction s as [|x s' IH]; cbn [words]; [constructor|].
  destruct (isWhiteSpace x) eqn:Hx; [exact IH|].
  destruct (head_is_space s').
  - constructor; [|exact IH]. cbn. rewrite Hx. split; [discriminate|reflexivity].
  - destruct (words s') as [|w r].
    + repeat constructor; [discriminate|]. cbn. now rewrite Hx.
    + inversion IH as [|? ? [Hw1 Hw2] Hr]; subst.
      constructor; [|exact Hr]. cbn. rewrite Hx. split; [discriminate|exact Hw2].
Qed.

(** C8: [norm] replaces every run of white space by one space and removes
    leading and trailing white space, that is, it returns the words of the
    text joined by single spaces; the empty text and an absent argument give
    the empty text; the text of two spaces, a, three spaces, b, a line feed,
    a space, c, a space gives the text a b c. *)
Theorem norm_collapses_and_trims :
  (forall s, norm (Some s) = unwords (words s)) /\
  norm (Some []) = [] /\
  norm None = [] /\
  norm (Some (js "  a   b" ++ newline ++ js " c ")) = js "a b c".
Proof.
  split; [exact norm_words|]. repeat split; vm_compute; reflexivity.
Qed.

(** ** reconstructFromViewSource *)



Lemma isPrefix_app (t rest : jsstring) : isPrefix t (t ++ rest) = true.
Proof.
  induction t as [|x t IH]; [destruct rest; reflexivity|].
  cbn. now rewrite N.eqb_refl, IH.
Qed.

Lemma includes_infix (pre t post : jsstring) : includes (pre ++ t ++ post) t = true.
Proof.
  induction pre as [|x pre IH].
  - cbn [app]. destruct (t ++ post) eqn:E; cbn [includes];
      rewrite <- E, isPrefix_app; reflexivity.
  - cbn [app includes]. rewrite IH. apply orb_true_r.
Qed.

Lemma shape_cell_marker (w : jsstring) (cs : caps) :
  shape cellRegex w cs ->
  exists a lc b, w = a ++ lc ++ b /\ same_text_i lc (js "line-content").
Proof.
  unfold cellRegex. intros H.
  apply shape_seq in H as (wo & w1 & co & c1 & -> & _ & H & _).
  apply shape_seq in H as (wa & w2 & ca & c2 & -> & _ & H & _).
  apply shape_seq in H as (wc & w3 & cc & c3 & -> & _ & H & _).
  apply shape_seq in H as (wq & w4 & cq & c4 & -> & _ & H & _).
  apply shape_seq in H as (wg & w5 & cg & c5 & -> & Hg & _ & _).
  apply shape_grp in Hg as (cg' & Hg & _).
  apply shape_seq in Hg as (g1 & g2 & d1 & d2 & -> & _ & Hg & _).
  apply shape_seq in Hg as (g3 & g4 & d3 & d4 & -> & Hg3 & _ & _).
  apply shape_lit_i in Hg3 as [Hg3 _].
  exists (wo ++ wa ++ wc ++ wq ++ g1), g3, (g4 ++ w5).
  split; [now rewrite <- !app_assoc|exact Hg3].
Qed.

(** X15: a page in which the text [line-content] occurs nowhere, in either
    case, is not a view-source dump: it is returned as it is. *)
Lemma reconstruct_identity_without_marker
      (he_decode : jsstring -> jsstring) (html : jsstring) :
  includes (List.map upper html) (List.map upper (js "line-content")) = false ->
  reconstructFromViewSource he_decode html = html.
Proof.
  intros H. unfold reconstructFromViewSource.
  destruct (exec_all cellRegex html) as [|f rest] eqn:E; [reflexivity|].
  exfalso.
  assert (Hf : In f (scan cellRegex 0 0 html)) by (fold (exec_all cellRegex html); rewrite E; now left).
  apply scan_from in Hf as (pre & w & post & -> & _ & Hw & _).
  apply shape_cell_marker in Hw as (a & lc & b & -> & Hlc).
  unfold same_text_i in Hlc.
  rewrite !map_app, Hlc, <- !app_assoc, app_assoc in H.
  rewrite includes_infix in H. discriminate.
Qed.

(** C3: when [cellRegex] matches nowhere in the input, the input is returned
    as it is. *)
Theorem reconstruct_identity_without_cells
        (he_decode : jsstring -> jsstring) (html : jsstring) :
  exec_all cellRegex html = [] ->
  reconstructFromViewSource he_decode html = html.
Proof.
  intros H. unfold reconstructFromViewSource. now rewrite H.
Qed.

Lemma reconstruct_identity_without_cells_witness :
  let html := js "<html><td class='x'>1</td></html>" in
  exec_all cellRegex html = [] /\
  reconstructFromViewSource (fun s => s) html = html.
Proof.
  split; [vm_compute; reflexivity|].
  apply (reconstruct_identity_without_cells (fun s => s)
           (js "<html><td class='x'>1</td></html>")).
  vm_compute. reflexivity.
Defined.

(** ** Completeness of the matcher on plain patterns *)



(** ** Texts up to the case of letters *)









(** ** Splitting a text *)










(** ** The literal and the lazy star *)





(** ** The opening tag *)



Lemma shape_seq_intro (a b : re) (w1 w2 : jsstring) (c1 c2 : caps) :
  shape a w1 c1 -> shape b w2 c2 -> shape (Seq a b) (w1 ++ w2) (c2 ++ c1).
Proof. intros Ha Hb. exists w1, w2, c1, c2. auto. Qed.




(** ** Well-formed cells *)







(** ** The text before a cell *)



(** ** The scan of a dump *)











Example reconstruct_two_line_cell :
  lines_of (reconstructFromViewSource (fun s => s)
              (dump [two_line_cell] (js "</tr></table>")))
  = [js "a"; js "b"].
Proof. vm_compute. reflexivity. Qed.


(** ** mapCategory *)

(** C5: [mapCategory] returns the slot of the first rule, in the fixed order
    of the table, whose substring test accepts the label, and the not-found
    value when none does; "tank" gives Tank, "physical ranged dps" gives
    Physical Ranged DPS and is accepted by that rule only, "hand" gives Hand,
    and "unknown" gives not-found. *)
Theorem mapCategory_first_match_wins :
  (forall t,
      mapCategory t = option_map snd (find (fun rule => fst rule t) category_rules)) /\
  mapCategory (js "tank") = Some (DoW_DoM, Tank) /\
  mapCategory (js "physical ranged dps") = Some (DoW_DoM, Physical_Ranged_DPS) /\
  matching_slots (js "physical ranged dps") = [(DoW_DoM, Physical_Ranged_DPS)] /\
  mapCategory (js "hand") = Some (DoH_DoL, Hand_DoH) /\
  mapCategory (js "unknown") = None.
Proof.
  split; [|vm_compute; repeat split].
  intros t. unfold mapCategory, category_rules. cbn [find fst snd option_map].
  repeat match goal with
    | |- context [if ?b then _ else _] => destruct b; cbn [option_map snd]
    end; reflexivity.
Qed.

(** ** The handler *)

Lemma trim_blank (s : jsstring) : forallb isWhiteSpace s = true -> trim s = [].
Proof.
  intros H. unfold trim, trimStart. now rewrite dropWhile_all.
Qed.

(** C9: when the path identifier is absent, empty or made of white space
    only, the handler answers 400 with an error message and requests no URL,
    whatever the network would answer. *)
Theorem blank_id_rejected_before_fetch
        (he_decode toLowerCase encodeURIComponent : jsstring -> jsstring)
        (cheerio_load : jsstring -> Document) (character : option jsstring) :
  forallb isWhiteSpace (or_empty character) = true ->
  handler he_decode toLowerCase encodeURIComponent cheerio_load character
  = Ret missing_id_response /\
  forall net,
    run net (handler he_decode toLowerCase encodeURIComponent cheerio_load character)
    = ([], missing_id_response).
Proof.
  intros H.
  assert (E : handler he_decode toLowerCase encodeURIComponent cheerio_load character
              = Ret missing_id_response).
  { unfold handler.
    replace (trim (if opt_truthy character then or_empty character else []))
      with (@nil N); [reflexivity|].
    destruct (opt_truthy character); [now rewrite trim_blank|reflexivity]. }
  split; [exact E|]. intros net. now rewrite E.
Qed.

Lemma blank_id_rejected_before_fetch_witness :
  let blank := Some (js "   ") in
  handler (fun s => s) (fun s => s) (fun s => s) no_document blank
  = Ret missing_id_response /\
  forall net,
    run net (handler (fun s => s) (fun s => s) (fun s => s) no_document blank)
    = ([], missing_id_response).
Proof.
  apply (blank_id_rejected_before_fetch (fun s => s) (fun s => s) (fun s => s)
           no_document (Some (js "   "))).
  reflexivity.
Defined.

(** * Further properties *)

(** ** The name and the tooltip of a job item *)

Lemma str_eqb_eq (a b : jsstring) : str_eqb a b = true -> a = b.
Proof.
  revert b. induction a as [|x a IH]; intros [|y b] H; cbn in H;
    try discriminate; [reflexivity|].
  apply andb_prop in H as [Hx H]. apply N.eqb_eq in Hx. subst. f_equal. now apply IH.
Qed.

(** The two placeholders hold no ASCII letter: the letter test of the name
    rule already excludes them. *)
Lemma isDash_no_letter (raw : jsstring) :
  isDash raw = true -> existsb isAsciiLetter raw = false.
Proof.
  unfold isDash. intros H. apply orb_prop in H as [H|H];
    apply str_eqb_eq in H; subst; reflexivity.
Qed.

Lemma letter_truthy (raw : jsstring) :
  existsb isAsciiLetter raw = true -> str_truthy raw = true.
Proof. destruct raw; [discriminate|reflexivity]. Qed.

Lemma visit_div_name_tooltip (st : Fields) (d : DivNode) :
  (f_name (visit_div st d), f_tooltip (visit_div st d)) =
  if negb (str_truthy (f_name st)) && name_block d
  then (norm (Some (div_text d)), tooltip_of d)
  else (f_name st, f_tooltip st).
Proof.
  unfold visit_div, name_block, tooltip_of, visit_raw.
  set (raw := norm (Some (div_text d))). cbn zeta.
  destruct (negb (num_truthy (f_level st)) && test re_level raw) eqn:L.
  - apply andb_prop in L as [_ L].
    rewrite (level_not_ratio _ L), (digits_no_letter _ (test_level_digits _ L)).
    cbn [f_name f_tooltip negb andb]. now rewrite andb_false_r.
  - unfold ratio. destruct (exp_pair raw) as [[e mx]|].
    + cbn [f_name f_tooltip negb andb]. now rewrite andb_false_r.
    + cbn [negb andb]. rewrite test_letter.
      destruct (existsb isAsciiLetter raw) eqn:A.
      * rewrite (letter_truthy _ A).
        assert (D : isDash raw = false).
        { destruct (isDash raw) eqn:D; [|reflexivity].
          apply isDash_no_letter in D. congruence. }
        rewrite D. cbn [negb andb]. rewrite !andb_true_r.
        destruct (negb (str_truthy (f_name st))); reflexivity.
      * rewrite !andb_false_r. reflexivity.
Qed.

Lemma name_block_truthy (d : DivNode) :
  name_block d = true -> str_truthy (norm (Some (div_text d))) = true.
Proof.
  unfold name_block. cbn zeta. intros H. apply andb_prop in H as [_ H].
  now apply letter_truthy.
Qed.

Lemma fold_visit_name_tooltip (divs : list DivNode) :
  forall st,
    let st' := fold_left visit_div divs st in
    (f_name st', f_tooltip st') =
    if str_truthy (f_name st) then (f_name st, f_tooltip st)
    else match find name_block divs with
         | Some d => (norm (Some (div_text d)), tooltip_of d)
         | None => (f_name st, f_tooltip st)
         end.
Proof.
  induction divs as [|d divs IH]; intros st; cbn zeta; cbn [fold_left find].
  - destruct (str_truthy (f_name st)); reflexivity.
  - specialize (IH (visit_div st d)). cbn zeta in IH. rewrite IH.
    pose proof (visit_div_name_tooltip st d) as V.
    destruct (str_truthy (f_name st)) eqn:T; cbn [negb andb] in V.
    + injection V as V1 V2. now rewrite V1, V2, T.
    + destruct (name_block d) eqn:B; injection V as V1 V2; rewrite V1, V2.
      * now rewrite (name_block_truthy _ B).
      * now rewrite T.
Qed.

(** X1: the name of a job item is the normalised text of its first sub-block
    that has an ASCII letter and is not matched by the ratio pattern, and the
    tooltip is the first non-empty one of that sub-block's [data-tooltip],
    [title] and [aria-label], or the name itself; without such a sub-block
    both are empty. *)
Theorem parseLi_name_and_tooltip (li : LiNode) :
  match find name_block (li_divs li) with
  | Some d =>
      name (parseLi li) = norm (Some (div_text d)) /\
      tooltip (parseLi li) = tooltip_of d
  | None => name (parseLi li) = [] /\ tooltip (parseLi li) = []
  end.
Proof.
  unfold parseLi. cbn [name tooltip].
  pose proof (fold_visit_name_tooltip (li_divs li) fields0) as F.
  cbn zeta in F. cbn [fields0 f_name f_tooltip str_truthy] in F.
  destruct (find name_block (li_divs li)); inversion F; auto.
Qed.

(** ** The numbers of a job item *)

Lemma decimal_fold_nonneg (s : jsstring) :
  forall a, (0 <= a)%Z ->
    (0 <= fold_left (fun acc x => (10 * acc + digit_value x)%Z) s a)%Z.
Proof.
  induction s as [|x s IH]; intros a Ha; cbn [fold_left]; [exact Ha|].
  apply IH. unfold digit_value. lia.
Qed.

Lemma decimal_value_nonneg (s : jsstring) : (0 <= decimal_value s)%Z.
Proof. apply decimal_fold_nonneg. lia. Qed.

Lemma exp_pair_natural (raw : jsstring) (e mx : number) :
  exp_pair raw = Some (e, mx) -> natural_number e /\ natural_number mx.
Proof.
  intros H.
  apply exp_pair_sound in H as (? & g1 & ? & ? & g2 & ? & _ & _ & _ & _ & _ & -> & ->).
  split; eexists; (split; [reflexivity|apply decimal_value_nonneg]).
Qed.

Lemma fold_visit_exp_natural (divs : list DivNode) :
  forall st,
    natural_number (f_exp st) /\ natural_number (f_max st) ->
    natural_number (f_exp (fold_left visit_div divs st)) /\
    natural_number (f_max (fold_left visit_div divs st)).
Proof.
  induction divs as [|d divs IH]; intros st H; cbn [fold_left]; [exact H|].
  apply IH. unfold visit_div. set (raw := norm (Some (div_text d))).
  destruct (exp_pair raw) as [[e mx]|] eqn:P.
  - destruct (@visit_raw_exp_set raw d st e mx P) as [-> ->].
    now apply exp_pair_natural with raw.
  - assert (R : ratio raw = false) by (unfold ratio; now rewrite P).
    destruct (@visit_raw_exp_keep raw d st R) as [-> ->]. exact H.
Qed.

(** X2: the numbers of a parsed job item are never NaN and never negative:
    the level is an integer between 0 and 999, held exactly, and exp and max
    are each the Number for a non-negative integer, that integer itself up to
    2^53 and its rounding beyond. *)
Theorem parseLi_numbers (li : LiNode) :
  exists l e mx,
    level (parseLi li) = Num l /\ exp (parseLi li) = to_number e /\
    max (parseLi li) = to_number mx /\
    (0 <= l <= 999)%Z /\ (0 <= e)%Z /\ (0 <= mx)%Z.
Proof.
  unfold parseLi. cbn [level exp max].
  destruct (fold_visit_exp_natural (li_divs li) fields0) as [(e & He & Be) (mx & Hm & Bm)].
  { split; exists 0%Z; split; (reflexivity || lia). }
  rewrite (fold_visit_level (li_divs li) fields0 0 eq_refl). cbn [Z.eqb].
  destruct (find level_candidate _) as [raw|] eqn:F.
  - apply find_some in F as [_ F]. unfold level_candidate in F.
    apply andb_prop in F as [F _].
    exists (decimal_value raw), e, mx. rewrite (parseInt_level _ F).
    pose proof (level_value_bound _ F). repeat split; auto; lia.
  - exists 0%Z, e, mx. repeat split; auto; lia.
Qed.

(** ** Normalised texts *)

(** A word in front of white space or of the end is the first word. *)
Lemma words_word_app (w rest : jsstring) :
  w <> [] ->
  forallb (fun x => negb (isWhiteSpace x)) w = true ->
  head_is_space rest = true ->
  words (w ++ rest) = w :: words rest.
Proof.
  induction w as [|x w IH]; intros Hne Hw Hr; [contradiction|].
  cbn in Hw. apply andb_prop in Hw as [Hx Hw]. apply negb_true_iff in Hx.
  cbn [app words]. rewrite Hx. destruct w as [|y w'].
  - cbn [app]. now rewrite Hr.
  - pose proof Hw as Hy. cbn in Hy. apply andb_prop in Hy as [Hy _].
    apply negb_true_iff in Hy.
    cbn [app head_is_space]. rewrite Hy.
    change (y :: w' ++ rest) with ((y :: w') ++ rest).
    rewrite IH; [reflexivity|discriminate|exact Hw|exact Hr].
Qed.

Lemma words_unwords (l : list jsstring) :
  Forall (fun w => w <> [] /\ forallb (fun x => negb (isWhiteSpace x)) w = true) l ->
  words (unwords l) = l.
Proof.
  induction l as [|w l IH]; intros H; [reflexivity|].
  inversion H as [|? ? [Hne Hw] Hl]; subst. unfold unwords in *.
  destruct l as [|w2 l'].
  - cbn [join]. rewrite <- (app_nil_r w) at 1. now rewrite words_word_app.
  - change (join [32%N] (w :: w2 :: l')) with (w ++ 32%N :: join [32%N] (w2 :: l')).
    rewrite words_word_app by (auto; reflexivity).
    change (words (32%N :: join [32%N] (w2 :: l'))) with (words (join [32%N] (w2 :: l'))).
    now rewrite IH.
Qed.

(** X4: [norm] is idempotent: a normalised text is its own normal form. *)
Theorem norm_idempotent (o : option jsstring) :
  norm (Some (norm o)) = norm o.
Proof.
  destruct o as [s|]; [|reflexivity].
  rewrite !norm_words. now rewrite words_unwords by apply words_proper.
Qed.

Lemma tidy_from_word (w rest : jsstring) (b : bool) :
  w <> [] ->
  forallb (fun x => negb (isWhiteSpace x)) w = true ->
  tidy_from b (w ++ rest) = tidy_from false rest.
Proof.
  revert b. induction w as [|x w IH]; intros b Hne Hw; [contradiction|].
  cbn in Hw. apply andb_prop in Hw as [Hx Hw]. apply negb_true_iff in Hx.
  cbn [app tidy_from]. rewrite Hx. destruct w as [|y w']; [reflexivity|].
  apply IH; [discriminate|exact Hw].
Qed.

Lemma unwords_tidy (l : list jsstring) :
  Forall (fun w => w <> [] /\ forallb (fun x => negb (isWhiteSpace x)) w = true) l ->
  l <> [] -> tidy_from true (unwords l) = true.
Proof.
  induction l as [|w l IH]; intros H Hl; [contradiction|].
  inversion H as [|? ? [Hne Hw] Hr]; subst. unfold unwords in *.
  destruct l as [|w2 l'].
  - cbn [join]. rewrite <- (app_nil_r w). now rewrite tidy_from_word.
  - change (join [32%N] (w :: w2 :: l')) with (w ++ 32%N :: join [32%N] (w2 :: l')).
    rewrite tidy_from_word by auto.
    cbn [tidy_from]. change (isWhiteSpace 32) with true. cbn iota.
    cbn [negb andb N.eqb Pos.eqb]. apply IH; [exact Hr|discriminate].
Qed.

Lemma unwords_ink (l : list jsstring) :
  Forall (fun w => w <> [] /\ forallb (fun x => negb (isWhiteSpace x)) w = true) l ->
  ink (unwords l) = concat l.
Proof.
  assert (W : forall w, forallb (fun x => negb (isWhiteSpace x)) w = true -> ink w = w).
  { induction w as [|x w IH]; cbn; [reflexivity|]. intros H.
    apply andb_prop in H as [Hx Hw]. rewrite Hx. f_equal. now apply IH. }
  induction l as [|w l IH]; intros H; [reflexivity|].
  inversion H as [|? ? [Hne Hw] Hr]; subst. unfold unwords, ink in *.
  destruct l as [|w2 l'].
  - cbn [join concat]. rewrite app_nil_r. now apply W.
  - change (join [32%N] (w :: w2 :: l')) with (w ++ 32%N :: join [32%N] (w2 :: l')).
    rewrite filter_app. cbn [filter]. change (isWhiteSpace 32) with true.
    cbn [negb]. rewrite IH by exact Hr. cbn [concat]. f_equal. now apply W.
Qed.

Lemma norm_is_tidy (s : jsstring) : tidy (norm (Some s)) = true.
Proof.
  rewrite norm_words. pose proof (words_proper s) as P.
  destruct (words s) as [|w l] eqn:E; [reflexivity|].
  assert (T : tidy_from true (unwords (w :: l)) = true)
    by (apply unwords_tidy; [exact P|discriminate]).
  unfold tidy. destruct (unwords (w :: l)); [reflexivity|exact T].
Qed.

(** X5: a normalised text has no white space at either end, its only white
    space units are single spaces between other units, and it holds the same
    units other than white space as the argument, in the same order. *)
Theorem norm_tidy (o : option jsstring) :
  tidy (norm o) = true /\ ink (norm o) = ink (or_empty o).
Proof.
  destruct o as [s|]; [|split; reflexivity]. cbn [or_empty].
  split; [apply norm_is_tidy|].
  rewrite norm_words, unwords_ink by apply words_proper. apply words_concat.
Qed.

Lemma words_cons_ink (x : N) (s : jsstring) :
  isWhiteSpace x = false -> words (x :: s) <> [].
Proof.
  intros Hx. cbn [words]. rewrite Hx.
  destruct (head_is_space s); [discriminate|]. destruct (words s); discriminate.
Qed.

Lemma tidy_from_head (s : jsstring) :
  tidy_from true s = true -> exists x s', s = x :: s' /\ isWhiteSpace x = false.
Proof.
  destruct s as [|x s']; cbn; [discriminate|].
  destruct (isWhiteSpace x) eqn:Hx; [discriminate|]. intros _. eauto.
Qed.

Lemma tidy_unwords (s : jsstring) :
  forall b,
    tidy_from b s = true ->
    unwords (words s) =
    match s with
    | x :: s' => if isWhiteSpace x then s' else s
    | [] => []
    end.
Proof.
  induction s as [|x s' IH]; intros b H; [reflexivity|].
  cbn [tidy_from] in H. cbn [words]. destruct (isWhiteSpace x) eqn:Hx.
  - apply andb_prop in H as [_ H]. rewrite (IH _ H).
    apply tidy_from_head in H as (y & t & -> & Hy). now rewrite Hy.
  - specialize (IH _ H). destruct s' as [|y t]; [reflexivity|].
    cbn [head_is_space]. destruct (isWhiteSpace y) eqn:Hy.
    + cbn [tidy_from] in H. rewrite Hy in H.
      apply andb_prop in H as [H T]. apply andb_prop in H as [_ H].
      apply N.eqb_eq in H. subst y.
      apply tidy_from_head in T as (z & u & -> & Hz).
      pose proof (words_cons_ink z u Hz) as W.
      change (words (32%N :: z :: u)) with (words (z :: u)) in *.
      destruct (words (z :: u)) as [|w r]; [contradiction|].
      unfold unwords in *. change (join [32%N] ([x] :: w :: r))
        with (x :: 32%N :: join [32%N] (w :: r)). now rewrite IH.
    + pose proof (words_cons_ink y t Hy) as W.
      destruct (words (y :: t)) as [|w r]; [contradiction|].
      rewrite unwords_cons. now rewrite IH.
Qed.

(** X6: the texts [norm] leaves as they are, are exactly the tidy ones: no
    white space at either end and only single spaces inside. *)
Theorem norm_fixed_points (t : jsstring) :
  norm (Some t) = t <-> tidy t = true.
Proof.
  split.
  - intros <-. apply norm_is_tidy.
  - intros H. rewrite norm_words. destruct t as [|x t']; [reflexivity|].
    cbn [tidy] in H. rewrite (tidy_unwords _ _ H).
    apply tidy_from_head in H as (y & u & E & Hy). inversion E; subst.
    now rewrite Hy.
Qed.

(** ** The aggregation loop *)

Lemma Category_eqb_eq (a b : Category) : Category_eqb a b = true <-> a = b.
Proof. destruct a, b; cbn; split; intros H; try reflexivity; discriminate. Qed.

Lemma Category_eqb_refl (a : Category) : Category_eqb a a = true.
Proof. now apply Category_eqb_eq. Qed.

Lemma get_set_slot (k key : Category) (v : Slot) (o : Out) :
  get_slot k (set_slot key v o) = if Category_eqb k key then v else get_slot k o.
Proof. destruct o, k, key; reflexivity. Qed.

Lemma details_set_slot (key : Category) (v : Slot) (o : Out) :
  details_name (set_slot key v o) = details_name o /\
  details_world (set_slot key v o) = details_world o.
Proof. destruct o, key; split; reflexivity. Qed.

Lemma slot_eta (s : Slot) : MkSlot (slot_icon s) (jobs s) = s.
Proof. now destruct s. Qed.

Lemma visit_li_slot (key : Category) (out : Out) (li : LiNode) (k : Category) :
  get_slot k (visit_li key out li) =
  if Category_eqb k key && str_truthy (name (parseLi li))
  then MkSlot (slot_icon (get_slot k out)) (jobs (get_slot k out) ++ [job_of (parseLi li)])
  else get_slot k out.
Proof.
  unfold visit_li. cbn zeta.
  destruct (str_truthy (name (parseLi li))); cbn [negb];
    [|now rewrite andb_false_r].
  rewrite get_set_slot, andb_true_r.
  destruct (Category_eqb k key) eqn:E; [|reflexivity].
  apply Category_eqb_eq in E. now subst.
Qed.

Lemma fold_visit_li (key : Category) (lis : list LiNode) :
  forall out k,
    get_slot k (fold_left (visit_li key) lis out) =
    if Category_eqb k key
    then MkSlot (slot_icon (get_slot k out)) (jobs (get_slot k out) ++ named_jobs lis)
    else get_slot k out.
Proof.
  unfold named_jobs.
  induction lis as [|li lis IH]; intros out k; cbn [fold_left List.map filter].
  - rewrite app_nil_r, slot_eta. now destruct (Category_eqb k key).
  - rewrite IH, visit_li_slot.
    destruct (Category_eqb k key); [|reflexivity]. cbn [andb].
    destruct (str_truthy (name (parseLi li))); [|reflexivity].
    cbn [slot_icon jobs List.map]. now rewrite <- app_assoc.
Qed.

Lemma fold_visit_li_details (key : Category) (lis : list LiNode) :
  forall out,
    details_name (fold_left (visit_li key) lis out) = details_name out /\
    details_world (fold_left (visit_li key) lis out) = details_world out.
Proof.
  induction lis as [|li lis IH]; intros out; cbn [fold_left]; [now split|].
  destruct (IH (visit_li key out li)) as [-> ->]. unfold visit_li. cbn zeta.
  destruct (negb _); [now split|]. apply details_set_slot.
Qed.

(** What a header does to the slot of [k]. *)
Lemma visit_h4_slot (toLowerCase : jsstring -> jsstring) (out : Out) (h4 : H4Node)
      (k : Category) :
  get_slot k (visit_h4 toLowerCase out h4) =
  if headed toLowerCase k h4 then
    MkSlot (match slot_icon (get_slot k out) with
            | Some i => Some i
            | None => if opt_truthy (h4_img_src h4) then h4_img_src h4 else None
            end)
           (jobs (get_slot k out) ++ section_jobs toLowerCase k h4)
  else get_slot k out.
Proof.
  unfold visit_h4, section_jobs, headed. cbn zeta.
  destruct (mapCategory (toLowerCase (norm (Some (h4_text h4))))) as [[g key]|];
    [|reflexivity].
  destruct (Category_eqb k key) eqn:E.
  - apply Category_eqb_eq in E. subst key.
    destruct (h4_next_ul h4) as [lis|].
    + rewrite fold_visit_li, Category_eqb_refl.
      destruct (slot_icon (get_slot k out)) eqn:I; [now rewrite I|].
      destruct (opt_truthy (h4_img_src h4)).
      * now rewrite get_set_slot, Category_eqb_refl.
      * now rewrite I.
    + rewrite app_nil_r.
      destruct (slot_icon (get_slot k out)) eqn:I; [now rewrite <- I, slot_eta|].
      destruct (opt_truthy (h4_img_src h4)).
      * now rewrite get_set_slot, Category_eqb_refl.
      * now rewrite <- I, slot_eta.
  - destruct (h4_next_ul h4) as [lis|].
    + rewrite fold_visit_li, E.
      destruct (slot_icon (get_slot key out)); [reflexivity|].
      destruct (opt_truthy (h4_img_src h4)); [|reflexivity].
      now rewrite get_set_slot, E.
    + destruct (slot_icon (get_slot key out)); [reflexivity|].
      destruct (opt_truthy (h4_img_src h4)); [|reflexivity].
      now rewrite get_set_slot, E.
Qed.

Lemma fold_visit_h4 (toLowerCase : jsstring -> jsstring) (hs : list H4Node)
      (k : Category) :
  forall out,
    let s := get_slot k (fold_left (visit_h4 toLowerCase) hs out) in
    jobs s = jobs (get_slot k out) ++ flat_map (section_jobs toLowerCase k) hs /\
    slot_icon s =
      match slot_icon (get_slot k out) with
      | Some i => Some i
      | None =>
          match find (fun h => headed toLowerCase k h && opt_truthy (h4_img_src h)) hs with
          | Some h => h4_img_src h
          | None => None
          end
      end.
Proof.
  induction hs as [|h hs IH]; intros out; cbn zeta; cbn [fold_left flat_map find].
  - rewrite app_nil_r. split; [reflexivity|]. now destruct (slot_icon _).
  - destruct (IH (visit_h4 toLowerCase out h)) as [J I]. cbn zeta in J, I.
    rewrite J, I, visit_h4_slot.
    destruct (headed toLowerCase k h) eqn:H; cbn [jobs slot_icon andb].
    + split; [now rewrite <- app_assoc|].
      destruct (slot_icon (get_slot k out)); [reflexivity|].
      destruct (opt_truthy (h4_img_src h)) eqn:T; [|reflexivity].
      destruct (h4_img_src h); [reflexivity|discriminate].
    + unfold section_jobs at 2. rewrite H. now split.
Qed.

(** X8: the job entries of a category are those of the lists of the headers
    whose label selects it, in the order of the headers and, within a list,
    of its items; items without a name, headers without a list and headers
    with an unknown label contribute nothing. *)
Theorem aggregate_jobs_in_document_order
        (toLowerCase : jsstring -> jsstring) (doc : Document) (k : Category) :
  jobs (get_slot k (aggregate toLowerCase doc))
  = flat_map (section_jobs toLowerCase k) (doc_h4s doc).
Proof.
  unfold aggregate.
  destruct (fold_visit_h4 toLowerCase (doc_h4s doc) k (out0 doc)) as [J _].
  cbn zeta in J. rewrite J. now destruct k.
Qed.

(** X9: the icon of a category is the image of the first header selecting it
    that has a non-empty image source; later headers do not replace it, and
    without such a header it stays absent. *)
Theorem aggregate_icon_first_seen
        (toLowerCase : jsstring -> jsstring) (doc : Document) (k : Category) :
  slot_icon (get_slot k (aggregate toLowerCase doc)) =
  match find (fun h => headed toLowerCase k h && opt_truthy (h4_img_src h))
             (doc_h4s doc) with
  | Some h => h4_img_src h
  | None => None
  end.
Proof.
  unfold aggregate.
  destruct (fold_visit_h4 toLowerCase (doc_h4s doc) k (out0 doc)) as [_ I].
  cbn zeta in I. rewrite I. now destruct k.
Qed.

Lemma parseLi_named (li : LiNode) :
  str_truthy (name (parseLi li)) = true ->
  exists d,
    name_block d = true /\
    name (parseLi li) = norm (Some (div_text d)) /\
    tooltip (parseLi li) = tooltip_of d.
Proof.
  unfold parseLi. cbn [name tooltip].
  pose proof (fold_visit_name_tooltip (li_divs li) fields0) as F.
  cbn zeta in F. cbn [fields0 f_name f_tooltip str_truthy] in F.
  destruct (find name_block (li_divs li)) as [d|] eqn:E;
    injection F as F1 F2; rewrite F1, F2; [|discriminate].
  intros _. apply find_some in E as [_ E]. eauto.
Qed.

Lemma parseLi_natural (li : LiNode) :
  (exists l, level (parseLi li) = Num l /\ (0 <= l <= 999)%Z) /\
  natural_number (exp (parseLi li)) /\
  natural_number (max (parseLi li)).
Proof.
  unfold parseLi. cbn [level exp max]. split.
  - rewrite (fold_visit_level (li_divs li) fields0 0 eq_refl). cbn [Z.eqb].
    destruct (find level_candidate _) as [raw|] eqn:F.
    + apply find_some in F as [_ F]. unfold level_candidate in F.
      apply andb_prop in F as [F _]. rewrite (parseInt_level _ F).
      eexists. split; [reflexivity|apply level_value_bound, F].
    + exists 0%Z. split; [reflexivity|lia].
  - apply fold_visit_exp_natural. split; exists 0%Z; split; (reflexivity || lia).
Qed.

Lemma num_or_zero_natural (n : number) :
  natural_number n -> natural_number (num_or_zero n).
Proof.
  intros (z & -> & Hz). unfold num_or_zero, to_number.
  destruct (safe_integer z) eqn:S; cbn [num_truthy].
  - destruct (Z.eqb_spec z 0); cbn [negb].
    + exists 0%Z. split; [reflexivity|lia].
    + exists z. unfold to_number. rewrite S. split; [reflexivity|exact Hz].
  - exists z. unfold to_number. rewrite S. split; [reflexivity|exact Hz].
Qed.

Lemma job_of_ok (li : LiNode) :
  str_truthy (name (parseLi li)) = true -> job_ok (job_of (parseLi li)).
Proof.
  intros H. destruct (parseLi_named li H) as (d & B & N & T).
  destruct (parseLi_natural li) as ((l & L & Bl) & E & M).
  unfold job_ok, job_of. cbn [job_name job_name_tooltip job_level job_exp job_exp_max job_icon].
  repeat split.
  - rewrite N. unfold name_block in B. cbn zeta in B. now apply andb_prop in B as [_ B].
  - rewrite N. apply norm_is_tidy.
  - destruct (str_truthy (tooltip (parseLi li))) eqn:TT; [exact TT|exact H].
  - exists l. rewrite L. unfold num_or_zero. cbn [num_truthy].
    destruct (Z.eqb_spec l 0); cbn [negb]; [subst; split; [reflexivity|lia]|now split].
  - now apply num_or_zero_natural.
  - now apply num_or_zero_natural.
  - unfold or_else. destruct (opt_truthy (icon (parseLi li))) eqn:I; [|discriminate].
    intros C. rewrite C in I. discriminate.
Qed.

(** X10: every job entry of the result is well formed: its name is tidy and
    has an ASCII letter, its tooltip is not empty, its level is an integer
    between 0 and 999, its exp and max are never NaN and never negative (the
    Number for a non-negative integer: exact up to 2^53, rounded beyond), and
    its icon is absent or not empty. *)
Theorem aggregate_jobs_well_formed
        (toLowerCase : jsstring -> jsstring) (doc : Document) (k : Category) :
  Forall job_ok (jobs (get_slot k (aggregate toLowerCase doc))).
Proof.
  unfold aggregate.
  destruct (fold_visit_h4 toLowerCase (doc_h4s doc) k (out0 doc)) as [J _].
  cbn zeta in J. rewrite J. replace (jobs (get_slot k (out0 doc))) with (@nil Job)
    by now destruct k.
  cbn [app]. apply Forall_forall. intros j Hj.
  apply in_flat_map in Hj as (h & _ & Hj). unfold section_jobs in Hj.
  destruct (headed toLowerCase k h); [|contradiction].
  destruct (h4_next_ul h) as [lis|]; [|contradiction].
  unfold named_jobs in Hj. apply in_map_iff in Hj as (p & <- & Hp).
  apply filter_In in Hp as [Hp Hn]. apply in_map_iff in Hp as (li & <- & _).
  now apply job_of_ok.
Qed.

Lemma fold_visit_h4_details (toLowerCase : jsstring -> jsstring) (hs : list H4Node) :
  forall out,
    details_name (fold_left (visit_h4 toLowerCase) hs out) = details_name out /\
    details_world (fold_left (visit_h4 toLowerCase) hs out) = details_world out.
Proof.
  induction hs as [|h hs IH]; intros out; cbn [fold_left]; [now split|].
  destruct (IH (visit_h4 toLowerCase out h)) as [-> ->]. unfold visit_h4. cbn zeta.
  destruct (mapCategory _) as [[g key]|]; [|now split].
  assert (D : forall o, details_name
              (match slot_icon (get_slot key o) with
               | Some _ => o
               | None => if opt_truthy (h4_img_src h)
                         then set_slot key (MkSlot (h4_img_src h) (jobs (get_slot key o))) o
                         else o
               end) = details_name o /\
            details_world
              (match slot_icon (get_slot key o) with
               | Some _ => o
               | None => if opt_truthy (h4_img_src h)
                         then set_slot key (MkSlot (h4_img_src h) (jobs (get_slot key o))) o
                         else o
               end) = details_world o).
  { intros o. destruct (slot_icon (get_slot key o)); [now split|].
    destruct (opt_truthy (h4_img_src h)); [apply details_set_slot|now split]. }
  destruct (h4_next_ul h) as [lis|]; [|apply D].
  destruct (fold_visit_li_details key lis
              (match slot_icon (get_slot key out) with
               | Some _ => out
               | None => if opt_truthy (h4_img_src h)
                         then set_slot key (MkSlot (h4_img_src h) (jobs (get_slot key out))) out
                         else out
               end)) as [-> ->].
  apply D.
Qed.

(** X11: the identity block holds the normalised texts of the name and world
    elements, whatever headers and lists the page has; when an element is
    missing (its text is empty) the field is the empty text. *)
Theorem aggregate_details
        (toLowerCase : jsstring -> jsstring) (doc : Document) :
  details_name (aggregate toLowerCase doc) = norm (Some (chara_name_text doc)) /\
  details_world (aggregate toLowerCase doc) = norm (Some (chara_world_text doc)) /\
  (chara_name_text doc = [] -> details_name (aggregate toLowerCase doc) = []) /\
  (chara_world_text doc = [] -> details_world (aggregate toLowerCase doc) = []).
Proof.
  unfold aggregate.
  destruct (fold_visit_h4_details toLowerCase (doc_h4s doc) (out0 doc)) as [-> ->].
  cbn [out0 details_name details_world]. repeat split; intros ->; reflexivity.
Qed.

(** ** The handler *)

Lemma handler_id (character : option jsstring) :
  trim (if opt_truthy character then or_empty character else [])
  = trim (or_empty character).
Proof.
  destruct character as [[|x s]|]; reflexivity.
Qed.

Lemma dropWhile_idem (p : N -> bool) (s : jsstring) :
  dropWhile p (dropWhile p s) = dropWhile p s.
Proof.
  induction s as [|x s IH]; [reflexivity|]. cbn [dropWhile].
  destruct (p x) eqn:Hx; [exact IH|]. cbn [dropWhile]. now rewrite Hx.
Qed.

Lemma dropWhile_head (p : N -> bool) (s : jsstring) :
  match dropWhile p s with
  | x :: _ => p x = false
  | [] => True
  end.
Proof.
  induction s as [|x s IH]; [exact I|]. cbn [dropWhile].
  destruct (p x) eqn:Hx; [exact IH|exact Hx].
Qed.

Lemma trim_idempotent (s : jsstring) : trim (trim s) = trim s.
Proof.
  unfold trim at 2. unfold trim at 1.
  assert (S : trimStart (trimEnd (trimStart s)) = trimEnd (trimStart s)).
  { unfold trimStart at 2 3. pose proof (dropWhile_head isWhiteSpace s) as Hh.
    destruct (dropWhile isWhiteSpace s) as [|x t]; [reflexivity|].
    rewrite trimEnd_cons. cbn [forallb]. rewrite Hh. cbn [andb].
    unfold trimStart. cbn [dropWhile]. now rewrite Hh. }
  rewrite S. unfold trimEnd. now rewrite rev_involutive, dropWhile_idem.
Qed.

(** X13: white space around the identifier does not matter: the handler
    treats an identifier and its trimmed form alike. *)
Theorem handler_ignores_outer_space
        (he_decode toLowerCase encodeURIComponent : jsstring -> jsstring)
        (cheerio_load : jsstring -> Document) (s : jsstring) :
  handler he_decode toLowerCase encodeURIComponent cheerio_load (Some s)
  = handler he_decode toLowerCase encodeURIComponent cheerio_load (Some (trim s)).
Proof.
  unfold handler. rewrite !handler_id. cbn [or_empty]. now rewrite trim_idempotent.
Qed.

(** ** Pages and tags *)

Lemma reconstruct_identity_without_marker_witness :
  reconstructFromViewSource (fun s => s) (js "<table><td class='x'>1</td></table>")
  = js "<table><td class='x'>1</td></table>".
Proof.
  exact (reconstruct_identity_without_marker (fun s => s)
           (js "<table><td class='x'>1</td></table>") eq_refl).
Defined.

(** A greedy repetition in front of a continuation that refuses to start on
    a unit of the repeated class takes the whole run of such units. *)
Lemma rep_greedy_blocked (p : N -> bool) (k : cont) :
  (forall i x s c, p x = true -> k i (x :: s) c = None) ->
  forall s min i c,
    rep true p min None i s c k =
    if min <=? run_len p s
    then k (i + run_len p s) (skipn (run_len p s) s) c
    else None.
Proof.
  intros Hk. induction s as [|x s IH]; intros min i c;
    cbn [rep exhausted run_len dec].
  - destruct min; cbn [Nat.leb skipn]; [|reflexivity]. now rewrite Nat.add_0_r.
  - destruct (p x) eqn:Hx.
    + destruct min as [|min']; rewrite IH; cbn [Nat.leb skipn];
        rewrite Nat.add_succ_r; cbn [Nat.add]; [|reflexivity].
      rewrite (Hk _ _ _ _ Hx). now destruct (k _ _ _).
    + destruct min; cbn [Nat.leb skipn]; [|reflexivity]. now rewrite Nat.add_0_r.
Qed.

Lemma run_len_stop (p : N -> bool) (s : jsstring) :
  match skipn (run_len p s) s with
  | y :: _ => p y = false
  | [] => True
  end.
Proof.
  induction s as [|x s IH]; [exact I|]. cbn [run_len].
  destruct (p x) eqn:Hx; [exact IH|exact Hx].
Qed.

Lemma run_len_whole (p : N -> bool) (s : jsstring) :
  skipn (run_len p s) s = [] <-> forallb p s = true.
Proof.
  induction s as [|x s IH]; cbn [run_len forallb]; [now split|].
  destruct (p x); cbn [skipn andb]; [exact IH|]. split; discriminate.
Qed.

(** A match attempt of [re_tag] succeeds exactly on a tag, and takes it. *)
Lemma exec_tag (i : nat) (s : jsstring) :
  exec_at re_tag i s =
  match tag_len s with
  | Some n => Some (i + n, [])
  | None => None
  end.
Proof.
  unfold exec_at, re_tag, plus, chr, tag_len. cbn [m].
  destruct s as [|x s1]; [reflexivity|].
  destruct (N.eqb 60 x); [|reflexivity].
  rewrite rep_greedy_blocked.
  - cbn zeta. destruct (1 <=? run_len notGt s1); [|reflexivity].
    pose proof (run_len_stop notGt s1) as Hs.
    destruct (skipn (run_len notGt s1) s1) as [|y t]; [reflexivity|].
    unfold notGt in Hs. apply negb_false_iff in Hs. rewrite N.eqb_sym in Hs.
    rewrite Hs. unfold accept. do 2 f_equal. lia.
  - intros j y t c Hy. unfold notGt in Hy. apply negb_true_iff in Hy.
    rewrite N.eqb_sym in Hy. now rewrite Hy.
Qed.

Lemma search_tag (s : jsstring) :
  forall i,
    match search re_tag i s with Some _ => true | None => false end = has_tag s.
Proof.
  induction s as [|x s IH]; intros i; cbn [search has_tag]; rewrite exec_tag.
  - reflexivity.
  - destruct (tag_len (x :: s)); [reflexivity|]. apply IH.
Qed.

Lemma test_tag (s : jsstring) : test re_tag s = has_tag s.
Proof. apply search_tag. Qed.

Lemma replace_tag_skip (k : nat) :
  forall i s,
    replace_from re_tag [] k i s = replace_from re_tag [] 0 (i + k) (skipn k s).
Proof.
  induction k as [|k IH]; intros i s.
  - now rewrite Nat.add_0_r.
  - destruct s as [|x s]; [reflexivity|]. cbn [replace_from skipn].
    rewrite IH. f_equal. lia.
Qed.

Lemma replace_tag_clean (s : jsstring) :
  forall i, has_tag s = false -> replace_from re_tag [] 0 i s = s.
Proof.
  induction s as [|x s IH]; intros i H; cbn [replace_from]; rewrite exec_tag;
    cbn [has_tag] in H.
  - reflexivity.
  - destruct (tag_len (x :: s)); [discriminate|]. now rewrite IH.
Qed.

Lemma no_gt_no_tag (s : jsstring) : forallb notGt s = true -> has_tag s = false.
Proof.
  induction s as [|x s IH]; intros H; [reflexivity|].
  cbn [forallb] in H. apply andb_prop in H as [_ H]. cbn [has_tag].
  replace (tag_len (x :: s)) with (@None nat); [now apply IH|].
  unfold tag_len. destruct (N.eqb 60 x); [|reflexivity]. cbn zeta.
  destruct (1 <=? run_len notGt s); [|reflexivity].
  apply run_len_whole in H. now rewrite H.
Qed.

Lemma strip_tags_no_tag (n : nat) :
  forall s i, length s <= n -> has_tag (replace_from re_tag [] 0 i s) = false.
Proof.
  induction n as [|n IH]; intros s i Hn.
  - destruct s; [reflexivity|cbn in Hn; lia].
  - destruct s as [|x s1]; [reflexivity|]. cbn [length] in Hn.
    cbn [replace_from]. rewrite exec_tag.
    destruct (tag_len (x :: s1)) as [len|] eqn:T.
    + cbn [app]. assert (L : 2 <= len).
      { unfold tag_len in T. destruct (N.eqb 60 x); [|discriminate]. cbn zeta in T.
        destruct (1 <=? run_len notGt s1); [|discriminate].
        destruct (skipn _ s1); [discriminate|]. inversion T. lia. }
      replace (Nat.eqb (i + len) i) with false by (symmetry; apply Nat.eqb_neq; lia).
      rewrite replace_tag_skip. apply IH.
      rewrite length_skipn. lia.
    + set (R := replace_from re_tag [] 0 (S i) s1).
      assert (HR : has_tag R = false) by (apply IH; lia).
      cbn [has_tag]. replace (tag_len (x :: R)) with (@None nat); [exact HR|].
      unfold tag_len in *. destruct (N.eqb 60 x); [|reflexivity]. cbn zeta in *.
      destruct s1 as [|y s2]; [reflexivity|].
      cbn [run_len] in T. destruct (notGt y) eqn:Hy.
      * cbn [Nat.leb] in T.
        destruct (skipn (S (run_len notGt s2)) (y :: s2)) eqn:Sk; [|discriminate].
        assert (A : forallb notGt (y :: s2) = true).
        { apply run_len_whole. cbn [run_len]. now rewrite Hy. }
        unfold R. rewrite replace_tag_clean by now apply no_gt_no_tag.
        cbn [run_len]. rewrite Hy. cbn [Nat.leb].
        apply run_len_whole in A. cbn [run_len] in A. rewrite Hy in A. now rewrite A.
      * unfold R. cbn [replace_from]. rewrite exec_tag.
        replace (tag_len (y :: s2)) with (@None nat).
        -- cbn [run_len]. now rewrite Hy.
        -- unfold tag_len. unfold notGt in Hy. apply negb_false_iff in Hy.
           apply N.eqb_eq in Hy. subst y. reflexivity.
Qed.

(** X14: removing the tags of a text leaves no tag (a [<], one or more units
    other than [>], and a [>]); a text without a tag is returned as it is; and
    removing tags twice is the same as removing them once. *)
Theorem strip_tags_leaves_none (s : jsstring) :
  test re_tag (replace_all re_tag [] s) = false /\
  (test re_tag s = false -> replace_all re_tag [] s = s) /\
  replace_all re_tag [] (replace_all re_tag [] s) = replace_all re_tag [] s.
Proof.
  assert (A : has_tag (replace_all re_tag [] s) = false)
    by (apply (strip_tags_no_tag (length s)); lia).
  repeat split.
  - now rewrite test_tag.
  - rewrite test_tag. apply replace_tag_clean.
  - now apply replace_tag_clean.
Qed.

Example strip_tags_sample :
  replace_all re_tag [] (js "a<b>c</b><<i>d<>e") = js "acd<>e".
Proof. vm_compute. reflexivity. Qed.

(** ** Failure messages *)

Lemma uint_digits_are_digits (u : Decimal.uint) : forallb isDigit (uint_digits u) = true.
Proof. induction u; cbn [uint_digits forallb]; try rewrite IHu; reflexivity. Qed.

Lemma uint_digits_fold (u : Decimal.uint) :
  forall r,
    fold_left (fun acc x => (10 * acc + digit_value x)%Z) (uint_digits u)
              (Z.of_N (DecimalPos.Unsigned.of_lu r))
    = Z.of_N (DecimalPos.Unsigned.of_lu (Decimal.revapp u r)).
Proof.
  induction u; intros r; cbn [uint_digits fold_left Decimal.revapp];
    [reflexivity|..];
    rewrite <- IHu; f_equal; cbn [DecimalPos.Unsigned.of_lu];
    unfold digit_value; lia.
Qed.

(** The decimal text of a status has the status as its value. *)
Lemma status_text_value (n : N) : decimal_value (status_text n) = Z.of_N n.
Proof.
  unfold status_text, decimal_value.
  change 0%Z with (Z.of_N (DecimalPos.Unsigned.of_lu Decimal.Nil)).
  rewrite uint_digits_fold. fold (Decimal.rev (N.to_uint n)).
  rewrite <- DecimalPos.Unsigned.of_uint_alt.
  change (Pos.of_uint (N.to_uint n)) with (N.of_uint (N.to_uint n)).
  now rewrite DecimalN.Unsigned.of_to.
Qed.

(** The decimal text of a status reads back as the Number for the status. *)
Lemma parseInt_status_text (n : N) : parseInt (status_text n) = to_number (Z.of_N n).
Proof.
  rewrite parseInt_digits.
  - now rewrite status_text_value.
  - unfold status_text. destruct n as [|p]; [discriminate|]. cbn [N.to_uint].
    pose proof (DecimalPos.Unsigned.to_uint_nonnil p) as H.
    destruct (Pos.to_uint p); [contradiction|discriminate..].
  - apply uint_digits_are_digits.
Qed.

Lemma str_eqb_refl (a : jsstring) : str_eqb a a = true.
Proof. induction a as [|x a IH]; cbn; [reflexivity|]. now rewrite N.eqb_refl. Qed.

(** X16: the failure message tells the kind of failure.  With an upstream
    status other than 0 it is "Upstream returned HTTP " followed by the status
    in decimal, whatever the error code is: digits whose decimal value is the
    status and that [parseInt] reads back as the Number for it; it is
    "Request timed out" exactly when there is no such status and the code is
    ECONNABORTED. *)
Theorem failure_message_kinds :
  (forall p code,
      exists digits,
        failure_message (Some (Npos p)) code = js "Upstream returned HTTP " ++ digits /\
        forallb isDigit digits = true /\
        decimal_value digits = Zpos p /\
        parseInt digits = to_number (Zpos p)) /\
  (forall status code,
      failure_message status code = js "Request timed out" <->
      (status = None \/ status = Some 0%N) /\ code = Some (js "ECONNABORTED")).
Proof.
  split.
  - intros p code. exists (status_text (Npos p)).
    repeat split; [apply uint_digits_are_digits|apply (status_text_value (Npos p))
                  |apply parseInt_status_text].
  - intros status code. split.
    + intros H. destruct status as [[|p]|].
      * split; [now right|]. cbn [failure_message] in H.
        destruct code as [c|]; [|discriminate].
        destruct (str_eqb c (js "ECONNABORTED")) eqn:E; [|discriminate].
        now apply str_eqb_eq in E; subst.
      * cbn [failure_message] in H. discriminate.
      * split; [now left|]. cbn [failure_message] in H.
        destruct code as [c|]; [|discriminate].
        destruct (str_eqb c (js "ECONNABORTED")) eqn:E; [|discriminate].
        now apply str_eqb_eq in E; subst.
    + intros [[->| ->] ->]; cbn [failure_message]; now rewrite str_eqb_refl.
Qed.
